(** * PSU link shortener front end: stores, form schemas and QR component

    A shallow embedding of the client-side state containers
    ([cln/app/stores/links.ts], [cln/app/stores/toast.ts]), of the form
    validation schemas of the link forms and of the effect and clipboard
    logic of the QR component ([cln/app/components/QRCodeGenerator.tsx]),
    followed by the properties proved about them.

    Conventions.  A JavaScript [number] that holds an identifier, a count,
    a page size or a time stamp is a [Z].  A field that may be [undefined]
    or [null] is an [option].  A plain JavaScript object that is used as a
    bag of optional keys is a [gmap string _].  The zustand [set] function
    is a shallow merge of a partial state into the current state. *)

From Stdlib Require Import ZArith Ascii String List.
From stdpp Require Import base option list gmap strings fin_maps.

Local Open Scope Z_scope.
Local Open Scope string_scope.

(* ===================================================================== *)
(** * JavaScript truthiness, for the values the code tests *)
(* ===================================================================== *)

Module Js.

(** [Boolean(s)] for a string: every string but the empty one. *)
Definition truthy_string (s : string) : bool :=
  match s with
  | EmptyString => false
  | String _ _ => true
  end.

(** [a || b] where [a] is a string that may be [undefined]/[null] and
    [b] is a string. *)
Definition or_string (a : option string) (b : string) : string :=
  match a with
  | Some s => if truthy_string s then s else b
  | None => b
  end.

(** [a || b] where [a] is an object that may be [undefined]: an object is
    always truthy. *)
Definition or_object {A : Type} (a : option A) (b : A) : A :=
  match a with
  | Some o => o
  | None => b
  end.

End Js.

(* ===================================================================== *)
(** * The link store ([cln/app/stores/links.ts]) *)
(* ===================================================================== *)

Module Links.

(** ** Types of the API *)

Record User := mkUser {
  user_id : Z;
  username : string;
  displayName : string;
  email : option string;
  isAdmin : bool
}.

Inductive SecurityLevel := safe | moderate | risky | dangerous.

Record LinkEntry := mkLinkEntry {
  id : Z;
  shortCode : string;
  originalUrl : string;
  description : option string;
  enabled : bool;
  pageTitle : option string;
  securityLevel : SecurityLevel;
  startDateTime : option string;
  endDateTime : option string;
  withLogo : bool;
  qrSubtitle : option string;
  accessCount : Z;
  createdAt : string;
  updatedAt : string;
  securityLevelUpdatedAt : option string;
  createdBy : User;
  createdById : Z
}.

Record CreateLinkDto := mkCreateLinkDto {
  c_originalUrl : string;
  c_description : option string;
  c_startDateTime : option string;
  c_endDateTime : option string;
  c_withLogo : option bool;
  c_qrSubtitle : option string
}.

Record UpdateLinkDto := mkUpdateLinkDto {
  u_originalUrl : option string;
  u_description : option string;
  u_enabled : option bool;
  u_startDateTime : option string;
  u_endDateTime : option string;
  u_withLogo : option bool;
  u_qrSubtitle : option string
}.

Record LinkAccessResponse := mkLinkAccessResponse {
  a_id : Z;
  a_shortCode : string;
  a_originalUrl : string;
  a_description : option string;
  a_pageTitle : option string;
  a_securityLevel : SecurityLevel;
  a_securityLevelUpdatedAt : option string;
  a_isActive : bool;
  a_accessCount : Z
}.

Record LinkStats := mkLinkStats {
  s_id : Z;
  s_shortCode : string;
  s_accessCount : Z;
  s_createdAt : string;
  s_updatedAt : string;
  s_isActive : bool
}.

Record RedirectInfo := mkRedirectInfo {
  url : string;
  redirect : bool
}.

(** A value stored under a key of a [PaginationParams] object.  A key can
    be present and hold [undefined] (an optional property written
    explicitly), which object spread copies like any other value. *)
Inductive ParamValue :=
| PUndefined
| PNumber (n : Z)
| PString (s : string).

#[global] Instance ParamValue_eq_dec : EqDecision ParamValue.
Proof. solve_decision. Defined.

(** [PaginationParams]: the keys [max], [offset], [sort] and [order], each
    optional. *)
Abbreviation PaginationParams := (gmap string ParamValue).

(** ** Axios: responses and errors *)

Record AxiosResponse (R : Type) := mkResponse { data : R }.
Arguments mkResponse {R} _.
Arguments data {R} _.

(** The body of an error response, read through [data?.message]. *)
Record ErrorBody := mkErrorBody { message : option string }.

(** The part of an HTTP error response the store reads. *)
Record ErrorResponse := mkErrorResponse {
  status : Z;
  err_data : option ErrorBody
}.

(** What the [catch] clauses receive: an error that carries a response
    when the server answered, and none on a network failure. *)
Record AxiosError := mkAxiosError { response : option ErrorResponse }.

(** [error.response?.data?.message] *)
Definition response_data_message (error : AxiosError) : option string :=
  r ← response error; d ← err_data r; message d.

(** The outcome of one HTTP call of type [R]. *)
Definition HttpResult (R : Type) : Type := AxiosError + AxiosResponse R.

Inductive Endpoint :=
| POST_links (body : CreateLinkDto)
| GET_links (params : PaginationParams)
| GET_links_id (link : Z)
| PUT_links_id (link : Z) (body : UpdateLinkDto)
| DELETE_links_id (link : Z)
| PUT_links_id_transfer (link newOwnerId : Z)
| GET_links_id_stats (link : Z)
| GET_links_access (code : string)
| GET_links_redirect (code : string)
| GET_links_admin_search (params : option PaginationParams)
| PUT_links_admin_disable (code : string)
| GET_links_admin_view (code : string).

(** ** The store state *)

Record LinkState := mkLinkState {
  links : list LinkEntry;
  currentLink : option LinkEntry;
  isLoading : bool;
  error : option string;
  totalCount : Z;
  pagination : PaginationParams
}.

(** A partial state, as passed to or returned for zustand's [set]: a key
    that is [None] is not mentioned. *)
Record Partial := mkPartial {
  p_links : option (list LinkEntry);
  p_currentLink : option (option LinkEntry);
  p_isLoading : option bool;
  p_error : option (option string);
  p_totalCount : option Z;
  p_pagination : option PaginationParams
}.

Definition nothing : Partial := mkPartial None None None None None None.

Definition with_links (v : list LinkEntry) (p : Partial) : Partial :=
  mkPartial (Some v) (p_currentLink p) (p_isLoading p) (p_error p)
            (p_totalCount p) (p_pagination p).
Definition with_currentLink (v : option LinkEntry) (p : Partial) : Partial :=
  mkPartial (p_links p) (Some v) (p_isLoading p) (p_error p)
            (p_totalCount p) (p_pagination p).
Definition with_isLoading (v : bool) (p : Partial) : Partial :=
  mkPartial (p_links p) (p_currentLink p) (Some v) (p_error p)
            (p_totalCount p) (p_pagination p).
Definition with_error (v : option string) (p : Partial) : Partial :=
  mkPartial (p_links p) (p_currentLink p) (p_isLoading p) (Some v)
            (p_totalCount p) (p_pagination p).
Definition with_totalCount (v : Z) (p : Partial) : Partial :=
  mkPartial (p_links p) (p_currentLink p) (p_isLoading p) (p_error p)
            (Some v) (p_pagination p).
Definition with_pagination (v : PaginationParams) (p : Partial) : Partial :=
  mkPartial (p_links p) (p_currentLink p) (p_isLoading p) (p_error p)
            (p_totalCount p) (Some v).

(** [Object.assign({}, state, partial)] *)
Definition assign (state : LinkState) (p : Partial) : LinkState :=
  {| links := default (links state) (p_links p);
     currentLink := default (currentLink state) (p_currentLink p);
     isLoading := default (isLoading state) (p_isLoading p);
     error := default (error state) (p_error p);
     totalCount := default (totalCount state) (p_totalCount p);
     pagination := default (pagination state) (p_pagination p) |}.

(** ** Store computations

    [M A] is a computation on the store that returns an [A] or throws.
    The synchronous prefix of an operation cannot throw and ends by
    sending the request; what follows the [await] is an [M]. *)

Definition M (A : Type) : Type := LinkState → (AxiosError + A) * LinkState.

Definition ret {A} (a : A) : M A := λ s, (inr a, s).

Definition bind {A B} (c : M A) (k : A → M B) : M B :=
  λ s, match c s with
       | (inr a, s') => k a s'
       | (inl e, s') => (inl e, s')
       end.

Definition throw {A} (e : AxiosError) : M A := λ s, (inl e, s).

Definition try_catch {A} (body : M A) (handler : AxiosError → M A) : M A :=
  λ s, match body s with
       | (inr a, s') => (inr a, s')
       | (inl e, s') => handler e s'
       end.

(** [get()] *)
Definition get : M LinkState := λ s, (inr s, s).

(** [set(partial)] *)
Definition set (p : Partial) : M unit := λ s, (inr tt, assign s p).

(** [set((state) => partial)] *)
Definition set_with (f : LinkState → Partial) : M unit :=
  λ s, (inr tt, assign s (f s)).

(** [await promise] once the promise has settled with [r]. *)
Definition await {R} (r : HttpResult R) : M (AxiosResponse R) :=
  match r with
  | inl e => throw e
  | inr resp => ret resp
  end.

Declare Scope store_scope.
Delimit Scope store_scope with store.
Notation "x <- c1 ;; c2" := (bind c1 (λ x, c2))
  (at level 100, c1 at next level, right associativity) : store_scope.
Notation "c1 ;; c2" := (bind c1 (λ _, c2))
  (at level 100, right associativity) : store_scope.


(** An asynchronous store operation that performs one HTTP call: run from
    a state, its synchronous prefix yields the request it sent, the
    continuation that runs when the call settles, and the state it left. *)
Record Suspended (R A : Type) := mkSuspended {
  request : Endpoint;
  resume : HttpResult R → M A
}.
Arguments mkSuspended {R A} _ _.
Arguments request {R A} _.
Arguments resume {R A} _ _.

Definition Async (R A : Type) : Type := LinkState → Suspended R A * LinkState.


Definition suspend {R A} (req : Endpoint) (k : HttpResult R → M A)
  : Suspended R A := mkSuspended req k.

Local Open Scope store_scope.

(** The [catch] clause shared, up to its fallback string, by every
    operation:
    [const errorMessage = error.response?.data?.message || fallback;
     set({ isLoading: false, error: errorMessage }); throw error;] *)
Definition fail_with {A} (fallback : string) (err : AxiosError) : M A :=
  let errorMessage := Js.or_string (response_data_message err) fallback in
  set (with_isLoading false (with_error (Some errorMessage) nothing)) ;;
  throw err.

(** [set({ isLoading: true, error: null })], the first statement of every
    operation. *)
Definition start_loading (s : LinkState) : LinkState :=
  assign s (with_isLoading true (with_error None nothing)).

(** ** CRUD operations *)

Definition createLink (data : CreateLinkDto) : Async LinkEntry LinkEntry :=
  λ s0,
    let s := start_loading s0 in
    (suspend (POST_links data) (λ reply,
       try_catch
         (response <- await reply ;;
          let newLink := Links.data response in
          set_with (λ state,
            with_links (newLink :: links state)
              (with_isLoading false nothing)) ;;
          ret newLink)
         (λ err, fail_with "Failed to create link" err)),
     s).

Definition getUserLinks (params : option PaginationParams)
  : Async (list LinkEntry) unit :=
  λ s0,
    let s := start_loading s0 in
    let queryParams := Js.or_object params (pagination s) in
    (suspend (GET_links queryParams) (λ reply,
       try_catch
         (response <- await reply ;;
          set (with_links (Links.data response)
                 (with_isLoading false
                    (with_pagination queryParams nothing))))
         (λ err, fail_with "Failed to fetch links" err)),
     s).

Definition getLinkById (id : Z) : Async LinkEntry LinkEntry :=
  λ s0,
    let s := start_loading s0 in
    (suspend (GET_links_id id) (λ reply,
       try_catch
         (response <- await reply ;;
          let link := Links.data response in
          set (with_currentLink (Some link)
                 (with_isLoading false nothing)) ;;
          ret link)
         (λ err, fail_with "Failed to fetch link" err)),
     s).

(** [state.currentLink?.id === id] *)
Definition currentLink_has_id (state : LinkState) (id : Z) : bool :=
  match currentLink state with
  | Some link => bool_decide (Links.id link = id)
  | None => false
  end.

Definition updateLink (id : Z) (data : UpdateLinkDto)
  : Async LinkEntry LinkEntry :=
  λ s0,
    let s := start_loading s0 in
    (suspend (PUT_links_id id data) (λ reply,
       try_catch
         (response <- await reply ;;
          let updatedLink := Links.data response in
          set_with (λ state,
            with_links
              (map (λ link,
                      if bool_decide (Links.id link = id)
                      then updatedLink else link)
                   (links state))
              (with_currentLink
                 (if currentLink_has_id state id
                  then Some updatedLink else currentLink state)
                 (with_isLoading false nothing))) ;;
          ret updatedLink)
         (λ err, fail_with "Failed to update link" err)),
     s).

Definition deleteLink (id : Z) : Async unit unit :=
  λ s0,
    let s := start_loading s0 in
    (suspend (DELETE_links_id id) (λ reply,
       try_catch
         (_ <- await reply ;;
          set_with (λ state,
            with_links
              (List.filter (λ link, negb (bool_decide (Links.id link = id)))
                           (links state))
              (with_currentLink
                 (if currentLink_has_id state id
                  then None else currentLink state)
                 (with_isLoading false nothing))))
         (λ err, fail_with "Failed to delete link" err)),
     s).

(** ** Ownership and statistics *)

Definition transferOwnership (id newOwnerId : Z) : Async LinkEntry LinkEntry :=
  λ s0,
    let s := start_loading s0 in
    (suspend (PUT_links_id_transfer id newOwnerId) (λ reply,
       try_catch
         (response <- await reply ;;
          let updatedLink := Links.data response in
          set_with (λ state,
            with_links
              (map (λ link,
                      if bool_decide (Links.id link = id)
                      then updatedLink else link)
                   (links state))
              (with_currentLink
                 (if currentLink_has_id state id
                  then Some updatedLink else currentLink state)
                 (with_isLoading false nothing))) ;;
          ret updatedLink)
         (λ err, fail_with "Failed to transfer ownership" err)),
     s).

Definition getLinkStats (id : Z) : Async LinkStats LinkStats :=
  λ s0,
    let s := start_loading s0 in
    (suspend (GET_links_id_stats id) (λ reply,
       try_catch
         (response <- await reply ;;
          set (with_isLoading false nothing) ;;
          ret (Links.data response))
         (λ err, fail_with "Failed to fetch stats" err)),
     s).

(** ** Public access *)

Definition accessLink (shortCode : string)
  : Async LinkAccessResponse LinkAccessResponse :=
  λ s0,
    let s := start_loading s0 in
    (suspend (GET_links_access shortCode) (λ reply,
       try_catch
         (response <- await reply ;;
          set (with_isLoading false nothing) ;;
          ret (Links.data response))
         (λ err, fail_with "Link not found" err)),
     s).

Definition getRedirectUrl (shortCode : string) : Async RedirectInfo string :=
  λ s0,
    let s := start_loading s0 in
    (suspend (GET_links_redirect shortCode) (λ reply,
       try_catch
         (response <- await reply ;;
          set (with_isLoading false nothing) ;;
          ret (url (Links.data response)))
         (λ err, fail_with "Link not found" err)),
     s).

(** ** Admin operations *)

Definition searchAllLinks (params : option PaginationParams)
  : Async (list LinkEntry) (list LinkEntry) :=
  λ s0,
    let s := start_loading s0 in
    (suspend (GET_links_admin_search params) (λ reply,
       try_catch
         (response <- await reply ;;
          set (with_isLoading false nothing) ;;
          ret (Links.data response))
         (λ err, fail_with "Failed to search links" err)),
     s).

Definition disableLinkByShortCode (shortCode : string)
  : Async LinkEntry LinkEntry :=
  λ s0,
    let s := start_loading s0 in
    (suspend (PUT_links_admin_disable shortCode) (λ reply,
       try_catch
         (response <- await reply ;;
          let updatedLink := Links.data response in
          set_with (λ state,
            with_links
              (map (λ link,
                      if bool_decide (Links.shortCode link = shortCode)
                      then updatedLink else link)
                   (links state))
              (with_isLoading false nothing)) ;;
          ret updatedLink)
         (λ err, fail_with "Failed to disable link" err)),
     s).

Definition viewLinkByShortCode (shortCode : string)
  : Async LinkEntry LinkEntry :=
  λ s0,
    let s := start_loading s0 in
    (suspend (GET_links_admin_view shortCode) (λ reply,
       try_catch
         (response <- await reply ;;
          set (with_isLoading false nothing) ;;
          ret (Links.data response))
         (λ err, fail_with "Failed to view link" err)),
     s).

(** ** UI state management (synchronous) *)

Definition setCurrentLink (link : option LinkEntry) (s : LinkState) : LinkState :=
  assign s (with_currentLink link nothing).

(** [{ ...state.pagination, ...params }]: the keys of [params] win. *)
Definition spread (base over : PaginationParams) : PaginationParams :=
  over ∪ base.

Definition setPagination (params : PaginationParams) (s : LinkState) : LinkState :=
  assign s (with_pagination (spread (pagination s) params) nothing).

Definition clearError (s : LinkState) : LinkState :=
  assign s (with_error None nothing).

Definition initial_pagination : PaginationParams :=
  {[ "max" := PNumber 50; "offset" := PNumber 0;
     "sort" := PString "createdAt"; "order" := PString "DESC" ]}.

Definition initial : LinkState :=
  {| links := []; currentLink := None; isLoading := false; error := None;
     totalCount := 0; pagination := initial_pagination |}.

Definition reset (s : LinkState) : LinkState :=
  assign s (with_links [] (with_currentLink None (with_isLoading false
             (with_error None (with_totalCount 0
                (with_pagination initial_pagination nothing)))))).

(** ** Persistence ([persist] middleware options)

    The store seen as the JavaScript object it is: one key per data
    field. *)
Inductive FieldValue :=
| VLinks (v : list LinkEntry)
| VCurrentLink (v : option LinkEntry)
| VIsLoading (v : bool)
| VError (v : option string)
| VTotalCount (v : Z)
| VPagination (v : PaginationParams).

Definition fields (state : LinkState) : gmap string FieldValue :=
  {[ "links" := VLinks (links state);
     "currentLink" := VCurrentLink (currentLink state);
     "isLoading" := VIsLoading (isLoading state);
     "error" := VError (error state);
     "totalCount" := VTotalCount (totalCount state);
     "pagination" := VPagination (pagination state) ]}.

(** [partialize: (state) => ({ pagination: state.pagination })] *)
Definition partialize (state : LinkState) : gmap string FieldValue :=
  {[ "pagination" := VPagination (pagination state) ]}.

(** What [JSON.stringify] keeps of an object: a key that holds
    [undefined] is dropped. *)
Definition stringify_params (p : PaginationParams) : PaginationParams :=
  filter (λ kv, kv.2 ≠ PUndefined) p.

Definition stringify_field (v : FieldValue) : FieldValue :=
  match v with
  | VPagination p => VPagination (stringify_params p)
  | other => other
  end.

(** The value kept under the storage key ["link-storage"]:
    [{ state: partialize(state), version: 1 }], serialised. *)
Record StorageValue := mkStorageValue {
  sv_state : gmap string FieldValue;
  sv_version : Z
}.

Inductive WebStorage := localStorage | sessionStorage.

Definition name : string := "link-storage".
Definition version : Z := 1.
(** [storage: createJSONStorage(() => sessionStorage)] *)
Definition storage : WebStorage := sessionStorage.

Definition persisted (state : LinkState) : StorageValue :=
  {| sv_state := stringify_field <$> partialize state;
     sv_version := version |}.

(** The pagination object found in a stored value, if any. *)
Definition persisted_pagination (v : StorageValue) : option PaginationParams :=
  match sv_state v !! "pagination" with
  | Some (VPagination p) => Some p
  | _ => None
  end.

(** ** The operations as one family *)

Inductive Operation :=
| CreateLink (data : CreateLinkDto)
| GetUserLinks (params : option PaginationParams)
| GetLinkById (id : Z)
| UpdateLink (id : Z) (data : UpdateLinkDto)
| DeleteLink (id : Z)
| TransferOwnership (id newOwnerId : Z)
| GetLinkStats (id : Z)
| AccessLink (shortCode : string)
| GetRedirectUrl (shortCode : string)
| SearchAllLinks (params : option PaginationParams)
| DisableLinkByShortCode (shortCode : string)
| ViewLinkByShortCode (shortCode : string).

(** The type of [response.data] for each operation. *)
Definition Reply (o : Operation) : Type :=
  match o with
  | CreateLink _ | GetLinkById _ | UpdateLink _ _ | TransferOwnership _ _
  | DisableLinkByShortCode _ | ViewLinkByShortCode _ => LinkEntry
  | GetUserLinks _ | SearchAllLinks _ => list LinkEntry
  | DeleteLink _ => unit
  | GetLinkStats _ => LinkStats
  | AccessLink _ => LinkAccessResponse
  | GetRedirectUrl _ => RedirectInfo
  end.

(** The type the operation's promise resolves to. *)
Definition Result (o : Operation) : Type :=
  match o with
  | CreateLink _ | GetLinkById _ | UpdateLink _ _ | TransferOwnership _ _
  | DisableLinkByShortCode _ | ViewLinkByShortCode _ => LinkEntry
  | GetUserLinks _ | DeleteLink _ => unit
  | SearchAllLinks _ => list LinkEntry
  | GetLinkStats _ => LinkStats
  | AccessLink _ => LinkAccessResponse
  | GetRedirectUrl _ => string
  end.

Definition perform (o : Operation) : Async (Reply o) (Result o) :=
  match o as o' return Async (Reply o') (Result o') with
  | CreateLink data => createLink data
  | GetUserLinks params => getUserLinks params
  | GetLinkById id => getLinkById id
  | UpdateLink id data => updateLink id data
  | DeleteLink id => deleteLink id
  | TransferOwnership id newOwnerId => transferOwnership id newOwnerId
  | GetLinkStats id => getLinkStats id
  | AccessLink shortCode => accessLink shortCode
  | GetRedirectUrl shortCode => getRedirectUrl shortCode
  | SearchAllLinks params => searchAllLinks params
  | DisableLinkByShortCode shortCode => disableLinkByShortCode shortCode
  | ViewLinkByShortCode shortCode => viewLinkByShortCode shortCode
  end.

(** The generic message of each operation, as a table. *)
Definition fallback (o : Operation) : string :=
  match o with
  | CreateLink _ => "Failed to create link"
  | GetUserLinks _ => "Failed to fetch links"
  | GetLinkById _ => "Failed to fetch link"
  | UpdateLink _ _ => "Failed to update link"
  | DeleteLink _ => "Failed to delete link"
  | TransferOwnership _ _ => "Failed to transfer ownership"
  | GetLinkStats _ => "Failed to fetch stats"
  | AccessLink _ => "Link not found"
  | GetRedirectUrl _ => "Link not found"
  | SearchAllLinks _ => "Failed to search links"
  | DisableLinkByShortCode _ => "Failed to disable link"
  | ViewLinkByShortCode _ => "Failed to view link"
  end.

(** The state in which an operation leaves the store when it is called
    in [s] and nothing else touches the store before its HTTP call
    settles with [reply]. *)
Definition run (o : Operation) (reply : HttpResult (Reply o)) (s : LinkState)
  : (AxiosError + Result o) * LinkState :=
  let '(k, s1) := perform o s in resume k reply s1.

(** ** Overlapping operations

    Nothing cancels or orders the calls: an operation may be started
    while others are in flight, and each continuation runs on the store
    as it is when its own call settles.  A world is the store, the
    operations in flight, and two history variables: the number of
    operations started so far, and the failure that last wrote the
    [error] field. *)

Record InFlight := mkInFlight {
  ticket : nat;
  op : Operation;
  cont : HttpResult (Reply op) → M (Result op)
}.

Record Failure := mkFailure {
  failed_ticket : nat;
  failed_op : Operation;
  failed_with : AxiosError
}.

Record World := mkWorld {
  store : LinkState;
  inflight : list InFlight;
  started : nat;
  error_source : option Failure
}.

Definition boot : World := mkWorld initial [] 0%nat None.

Definition start (o : Operation) (w : World) : World :=
  let '(k, s1) := perform o (store w) in
  {| store := s1;
     inflight := inflight w ++ [mkInFlight (started w) o (resume k)];
     started := S (started w);
     error_source := None |}.

Definition settle (i : nat) (f : InFlight) (reply : HttpResult (Reply (op f)))
    (w : World) : World :=
  {| store := (cont f reply (store w)).2;
     inflight := delete i (inflight w);
     started := started w;
     error_source :=
       match reply with
       | inl err => Some (mkFailure (ticket f) (op f) err)
       | inr _ => error_source w
       end |}.

Definition ui (act : LinkState → LinkState) (clears : bool) (w : World) : World :=
  {| store := act (store w);
     inflight := inflight w;
     started := started w;
     error_source := if clears then None else error_source w |}.

(** A step other than the start of an operation: a call settles, or a
    synchronous action of the UI runs. *)
Inductive later_step : World → World → Prop :=
| step_settle i f reply w :
    inflight w !! i = Some f →
    later_step w (settle i f reply w)
| step_setCurrentLink link w :
    later_step w (ui (setCurrentLink link) false w)
| step_setPagination params w :
    later_step w (ui (setPagination params) false w)
| step_clearError w :
    later_step w (ui clearError true w)
| step_reset w :
    later_step w (ui reset true w).

Inductive reachable : World → Prop :=
| reachable_boot : reachable boot
| reachable_start o w : reachable w → reachable (start o w)
| reachable_later w w' : reachable w → later_step w w' → reachable w'.

(** The discipline under which operations do not overlap: one is started
    only when none is in flight. *)
Inductive reachable_in_turn : World → Prop :=
| in_turn_boot : reachable_in_turn boot
| in_turn_start o w :
    reachable_in_turn w → inflight w = [] →
    reachable_in_turn (start o w)
| in_turn_later w w' :
    reachable_in_turn w → later_step w w' → reachable_in_turn w'.

(** The message the [error] field holds after failure [f]. *)
Definition failure_message (f : Failure) : string :=
  Js.or_string (response_data_message (failed_with f)) (fallback (failed_op f)).

(** ** Invariants of the worlds that can be reached *)

(** A continuation in flight is the one its operation left when it was
    started, in some state [s0]. *)
Definition genuine (f : InFlight) : Prop :=
  ∃ s0, cont f = resume (perform (op f) s0).1.

Definition tickets (w : World) : list nat := ticket <$> inflight w.

(** The failure [f] accounts for the message [m]: it wrote it, its
    operation was started, and it is no longer in flight. *)
Definition accounts_for (w : World) (f : Failure) (m : string) : Prop :=
  error_source w = Some f ∧ m = failure_message f ∧
  (failed_ticket f < started w)%nat ∧ failed_ticket f ∉ tickets w.

Record consistent (w : World) : Prop := mkConsistent {
  flights_genuine : Forall genuine (inflight w);
  tickets_issued : Forall (λ t, (t < started w)%nat) (tickets w);
  tickets_distinct : NoDup (tickets w);
  loading_has_cause : isLoading (store w) = true → inflight w ≠ [];
  error_has_source : ∀ m, error (store w) = Some m → ∃ f, accounts_for w f m
}.

(** When operations take turns, at most one is in flight, it is the one
    started last, and a failure that wrote [error] is the one of the
    operation started last. *)
Record consistent_in_turn (w : World) : Prop := mkConsistentInTurn {
  one_at_a_time : Forall (λ t, S t = started w) (tickets w);
  error_of_the_last : ∀ m, error (store w) = Some m →
    ∃ f, error_source w = Some f ∧ m = failure_message f ∧
         S (failed_ticket f) = started w
}.

End Links.

(* ===================================================================== *)
(** * The toast store ([cln/app/stores/toast.ts]) *)
(* ===================================================================== *)

Module Toast.

Inductive ToastSeverity := success | info | warning | error.

Inductive ToastPosition :=
| top_left | top_center | top_right
| bottom_left | bottom_center | bottom_right.

(** A timer handle.  In a browser [setTimeout] returns an integer greater
    than zero and under Node a [Timeout] object, so a handle is always
    truthy: [if (state.timeoutId)] tests for [null] only. *)
Abbreviation TimerId := positive.

Record ToastState := mkToastState {
  open : bool;
  message : string;
  severity : ToastSeverity;
  duration : Z;
  position : ToastPosition;
  timeoutId : option TimerId
}.

(** The host's timers: the pending ones with their delay, and the next
    handle [setTimeout] hands out.  Every timer this store creates runs
    the same callback, [() => set({ open: false, timeoutId: null })]. *)
Record World := mkWorld {
  state : ToastState;
  timers : gmap TimerId Z;
  next_timer : TimerId
}.

Definition initial : ToastState :=
  {| open := false; message := ""; severity := info; duration := 5000;
     position := bottom_right; timeoutId := None |}.

Definition boot : World := mkWorld initial ∅ 1%positive.

(** [clearTimeout(id)] *)
Definition clearTimeout (id : TimerId) (w : World) : World :=
  mkWorld (state w) (delete id (timers w)) (next_timer w).

(** [setTimeout(callback, delay)] *)
Definition setTimeout (delay : Z) (w : World) : TimerId * World :=
  (next_timer w,
   mkWorld (state w) (<[next_timer w := delay]> (timers w))
           (Pos.succ (next_timer w))).

(** [set(updater)] for an updater that returns a new state. *)
Definition set (f : ToastState → ToastState) (w : World) : World :=
  mkWorld (f (state w)) (timers w) (next_timer w).

(** First statement of [showToast] and body of [hideToast]: clear the
    timer the state refers to, if any. *)
Definition clear_existing (w : World) : World :=
  match timeoutId (state w) with
  | Some id => clearTimeout id w
  | None => w
  end.

(** First [set] of [showToast]: [{ ...state, timeoutId: null }]. *)
Definition showToast_clear (w : World) : World :=
  set (λ st, mkToastState (open st) (message st) (severity st)
                          (duration st) (position st) None)
      (clear_existing w).

(** [showToast(message, severity = 'info', duration = 5000,
               position = 'bottom-right')]; an omitted argument is
    [None]. *)
Definition showToast (message : string) (severity : option ToastSeverity)
    (duration : option Z) (position : option ToastPosition) (w : World)
  : World :=
  let severity := default info severity in
  let duration := default 5000 duration in
  let position := default bottom_right position in
  let w1 := showToast_clear w in
  let '(timeoutId, w2) := setTimeout duration w1 in
  set (λ _, mkToastState true message severity duration position
                         (Some timeoutId)) w2.

(** [hideToast()]: the updater returns [{ open: false, timeoutId: null }],
    which [set] merges into the state. *)
Definition hideToast (w : World) : World :=
  set (λ st, mkToastState false (message st) (severity st)
                          (duration st) (position st) None)
      (clear_existing w).

Definition showSuccess (message : string) (duration : option Z) : World → World :=
  showToast message (Some success) (Some (default 5000 duration)) None.
Definition showError (message : string) (duration : option Z) : World → World :=
  showToast message (Some error) (Some (default 5000 duration)) None.
Definition showWarning (message : string) (duration : option Z) : World → World :=
  showToast message (Some warning) (Some (default 5000 duration)) None.
Definition showInfo (message : string) (duration : option Z) : World → World :=
  showToast message (Some info) (Some (default 5000 duration)) None.

(** A pending timer expires: the host drops it and runs its callback. *)
Definition expire (id : TimerId) (w : World) : World :=
  set (λ st, mkToastState false (message st) (severity st)
                          (duration st) (position st) None)
      (mkWorld (state w) (delete id (timers w)) (next_timer w)).

Inductive step : World → World → Prop :=
| step_showToast m sev d pos w :
    step w (showToast m sev d pos w)
| step_hideToast w :
    step w (hideToast w)
| step_expire id w :
    is_Some (timers w !! id) →
    step w (expire id w).

Inductive reachable : World → Prop :=
| reachable_boot : reachable boot
| reachable_step w w' : reachable w → step w w' → reachable w'.

(** Every pending timer is the one the state refers to. *)
Definition tidy (w : World) : Prop :=
  ∀ id, is_Some (timers w !! id) → timeoutId (state w) = Some id.

(** A toast is on display exactly while its timer is pending. *)
Definition in_step (w : World) : Prop :=
  match open (state w) with
  | true => ∃ id, timeoutId (state w) = Some id ∧
                  timers w = {[ id := duration (state w) ]}
  | false => timeoutId (state w) = None ∧ timers w = ∅
  end.

End Toast.

(* ===================================================================== *)
(** * The form schemas (link creation form and link edit dialog) *)
(* ===================================================================== *)

Module Zod.

(** The values a form field can hold.  [VDayjs t] is a Dayjs object, as
    the date pickers produce: [Some t] is its instant in milliseconds,
    [None] an invalid date. *)
Inductive Value :=
| VUndefined
| VNull
| VBoolean (b : bool)
| VNumber (n : Z)
| VString (s : string)
| VDayjs (instant : option Z).

(** [Boolean(v)] *)
Definition truthy (v : Value) : bool :=
  match v with
  | VUndefined | VNull => false
  | VBoolean b => b
  | VNumber n => negb (n =? 0)%Z
  | VString s => Js.truthy_string s
  | VDayjs _ => true
  end.

(** A plain object; reading a key that is absent gives [undefined]. *)
Abbreviation Object := (gmap string Value).

Definition prop (o : Object) (key : string) : Value :=
  default VUndefined (o !! key).

Inductive TypeName := t_string | t_boolean | t_other.

Inductive Issue :=
| invalid_type (path : list string) (expected : TypeName) (required : bool)
| too_small (path : list string) (minimum : nat) (message : string)
| invalid_string (path : list string) (message : string)
| custom (path : list string) (message : string).

(** The status of a parse: [dirty] when a check failed on a value of the
    right type, [aborted] when the type is wrong. *)
Inductive Status := valid | dirty | aborted.

Definition merge (a b : Status) : Status :=
  match a, b with
  | aborted, _ | _, aborted => aborted
  | dirty, _ | _, dirty => dirty
  | valid, valid => valid
  end.

Inductive StringCheck :=
| check_min (minimum : nat) (message : string)
| check_url (message : string).

Inductive ZodType :=
| ZodString (checks : list StringCheck)
| ZodBoolean
| ZodAny
| ZodOptional (inner : ZodType).

(** The builders, in the order the source chains them. *)
Definition z_string : ZodType := ZodString [].
Definition z_boolean : ZodType := ZodBoolean.
Definition z_any : ZodType := ZodAny.

Definition min (minimum : nat) (message : string) (t : ZodType) : ZodType :=
  match t with
  | ZodString cs => ZodString (cs ++ [check_min minimum message])%list
  | other => other
  end.

Definition url (message : string) (t : ZodType) : ZodType :=
  match t with
  | ZodString cs => ZodString (cs ++ [check_url message])%list
  | other => other
  end.

Definition optional (t : ZodType) : ZodType := ZodOptional t.

Section Parsing.

(** The two library functions the schemas call: whether the URL parser
    accepts a string as an absolute URL ([new URL(s)] does not throw),
    and the instant [dayjs(v)] denotes for a value that is not already
    a Dayjs object ([None]: an invalid date). *)
Variable parses_as_url : string → bool.
Variable dayjs_parse : Value → option Z.

(** [dayjs(v)] *)
Definition dayjs (v : Value) : option Z :=
  match v with
  | VDayjs t => t
  | other => dayjs_parse other
  end.

(** [a.isBefore(b)]: a comparison of instants, false when either date
    is invalid. *)
Definition isBefore (a b : option Z) : bool :=
  match a, b with
  | Some x, Some y => (x <? y)%Z
  | _, _ => false
  end.

Definition run_check (path : list string) (s : string) (c : StringCheck)
  : list Issue :=
  match c with
  | check_min n message =>
      if (String.length s <? n)%nat then [too_small path n message] else []
  | check_url message =>
      if parses_as_url s then [] else [invalid_string path message]
  end.

Fixpoint parse (t : ZodType) (path : list string) (v : Value)
  : Status * list Issue :=
  match t with
  | ZodString checks =>
      match v with
      | VString s =>
          let issues := flat_map (run_check path s) checks in
          (match issues with [] => valid | _ => dirty end, issues)
      | VUndefined => (aborted, [invalid_type path t_string true])
      | _ => (aborted, [invalid_type path t_string false])
      end
  | ZodBoolean =>
      match v with
      | VBoolean _ => (valid, [])
      | VUndefined => (aborted, [invalid_type path t_boolean true])
      | _ => (aborted, [invalid_type path t_boolean false])
      end
  | ZodAny => (valid, [])
  | ZodOptional inner =>
      match v with
      | VUndefined => (valid, [])
      | _ => parse inner path v
      end
  end.

(** [z.object(shape)] on an object: every key of the shape is parsed,
    all issues are kept, keys outside the shape are stripped. *)
Definition Shape := list (string * ZodType).

Fixpoint parse_shape (shape : Shape) (o : Object) : Status * list Issue :=
  match shape with
  | [] => (valid, [])
  | (key, t) :: rest =>
      let '(st, issues) := parse t [key] (prop o key) in
      let '(st', issues') := parse_shape rest o in
      (merge st st', (issues ++ issues')%list)
  end.

Definition strip (shape : Shape) (o : Object) : Object :=
  filter (λ kv, kv.1 ∈ shape.*1) o.

(** An object schema with one [.refine(check, { message, path })]. *)
Record Refined := mkRefined {
  shape : Shape;
  check : Object → bool;
  refine_message : string;
  refine_path : list string
}.

Definition z_object (shape : Shape) : Shape := shape.

Definition refine (check : Object → bool) (message : string)
    (path : list string) (shape : Shape) : Refined :=
  mkRefined shape check message path.

(** The refinement runs unless the object parse aborted. *)
Definition parse_refined (schema : Refined) (o : Object)
  : Status * list Issue :=
  let '(st, issues) := parse_shape (shape schema) o in
  match st with
  | aborted => (aborted, issues)
  | _ =>
      if check schema (strip (shape schema) o)
      then (st, issues)
      else (dirty, (issues ++ [custom (refine_path schema)
                                      (refine_message schema)])%list)
  end.

(** [schema.safeParse(o).success] *)
Definition accepts (schema : Refined) (o : Object) : bool :=
  match (parse_refined schema o).1 with
  | valid => true
  | _ => false
  end.

(** The refinement both schemas share. *)
Definition dates_in_order (data : Object) : bool :=
  if truthy (prop data "startDateTime") && truthy (prop data "endDateTime")
  then isBefore (dayjs (prop data "startDateTime"))
                (dayjs (prop data "endDateTime"))
  else true.

Definition linkSchema : Refined :=
  refine dates_in_order "End date must be after start date" ["endDateTime"]
    (z_object
       [ ("originalUrl",
           url "Please enter a valid URL" (min 1 "URL is required" z_string));
         ("description", optional z_string);
         ("startDateTime", optional z_any);
         ("endDateTime", optional z_any);
         ("withLogo", optional z_boolean);
         ("qrSubtitle", optional z_string) ]).

Definition editLinkSchema : Refined :=
  refine dates_in_order "End date must be after start date" ["endDateTime"]
    (z_object
       [ ("originalUrl",
           url "Please enter a valid URL" (min 1 "URL is required" z_string));
         ("description", optional z_string);
         ("enabled", z_boolean);
         ("startDateTime", optional z_any);
         ("endDateTime", optional z_any);
         ("withLogo", z_boolean);
         ("qrSubtitle", optional z_string) ]).

End Parsing.

(** ** The conditions in terms of which acceptance is characterised *)

Definition absent_or_string (v : Value) : Prop :=
  v = VUndefined ∨ ∃ s, v = VString s.

Definition absent_or_boolean (v : Value) : Prop :=
  v = VUndefined ∨ ∃ b, v = VBoolean b.

Definition is_boolean (v : Value) : Prop := ∃ b, v = VBoolean b.

(** The URL field is a non-empty string that parses as an absolute URL. *)
Definition url_field_ok (parses_as_url : string → bool) (v : Value) : Prop :=
  ∃ s, v = VString s ∧ s ≠ "" ∧ parses_as_url s = true.

(** The start is strictly before the end. *)
Definition strictly_before (dayjs_parse : Value → option Z) (a b : Value) : Prop :=
  ∃ x y, dayjs dayjs_parse a = Some x ∧ dayjs dayjs_parse b = Some y ∧ x < y.

End Zod.

(* ===================================================================== *)
(** * The QR component ([cln/app/components/QRCodeGenerator.tsx]) *)
(* ===================================================================== *)

Module QRCodeGenerator.

Import Links.

Inductive QRErrorCorrectionLevel := L | M | Q | H.

#[global] Instance QRErrorCorrectionLevel_eq_dec
  : EqDecision QRErrorCorrectionLevel.
Proof. solve_decision. Defined.

(** What one render of the component sees: its props and its state. *)
Record Render := mkRender {
  link : LinkEntry;
  fullUrl : string;
  size : Z;
  errorCorrectionLevel : QRErrorCorrectionLevel
}.

(** ** Regeneration: the effect and its dependency array *)

Inductive Dep :=
| DNumber (n : Z)
| DLevel (l : QRErrorCorrectionLevel)
| DBoolean (b : bool)
| DString (s : option string).

#[global] Instance Dep_eq_dec : EqDecision Dep.
Proof. solve_decision. Defined.

(** [Object.is] on the values a dependency holds. *)
Definition object_is (a b : Dep) : bool := bool_decide (a = b).

(** [[size, errorCorrectionLevel, link.withLogo, link.qrSubtitle]] *)
Definition deps (r : Render) : list Dep :=
  [ DNumber (size r); DLevel (errorCorrectionLevel r);
    DBoolean (withLogo (link r)); DString (qrSubtitle (link r)) ].

(** React's comparison of two dependency arrays, position by position. *)
Fixpoint areHookInputsEqual (next prev : list Dep) : bool :=
  match next, prev with
  | a :: next', b :: prev' => object_is a b && areHookInputsEqual next' prev'
  | _, _ => true
  end.

(** Whether the effect, and with it [generateQRCode], runs after a
    render: always after the first one, afterwards only when a
    dependency changed since the previous render. *)
Definition effect_runs (prev : option Render) (next : Render) : bool :=
  match prev with
  | None => true
  | Some p => negb (areHookInputsEqual (deps next) (deps p))
  end.

(** What [generateQRCode] paints, from the values of the render whose
    effect called it: the call to [QRCode.toCanvas], then the logo (when
    it loads) and the caption. *)
Record Picture := mkPicture {
  text : string;
  width : Z;
  level : QRErrorCorrectionLevel;
  logo : bool;
  caption : option string
}.

Definition caption_of (r : Render) : option string :=
  match qrSubtitle (link r) with
  | Some s => if Js.truthy_string s then Some s else None
  | None => None
  end.

Definition generateQRCode (logo_loads : bool) (r : Render) : Picture :=
  if withLogo (link r)
  then if logo_loads
       then mkPicture (fullUrl r) (size r) (errorCorrectionLevel r) true
                      (caption_of r)
       else mkPicture (fullUrl r) (size r) (errorCorrectionLevel r) false None
  else mkPicture (fullUrl r) (size r) (errorCorrectionLevel r) false
                 (caption_of r).

(** The canvas after a series of renders of one mounted component: the
    previous render, and the picture last painted. *)
Record Mounted := mkMounted {
  previous : option Render;
  canvas : option Picture
}.

Definition unmounted : Mounted := mkMounted None None.

Definition commit (logo_loads : bool) (m : Mounted) (r : Render) : Mounted :=
  mkMounted (Some r)
    (if effect_runs (previous m) r
     then Some (generateQRCode logo_loads r)
     else canvas m).

Definition render_all (logo_loads : bool) (rs : list Render) : Mounted :=
  fold_left (commit logo_loads) rs unmounted.

(** A re-render in which only the target URL differs. *)
Definition with_fullUrl (u : string) (r : Render) : Render :=
  mkRender (link r) u (size r) (errorCorrectionLevel r).

(** ** Copy to clipboard *)

Inductive Action :=
| ConsoleError (what : string)
| ClipboardWrite
| ClipboardWriteText (text : string)
| ShowSuccess (id : string)
| ShowError (id : string)
| UnhandledRejection.

#[global] Instance Action_eq_dec : EqDecision Action.
Proof. solve_decision. Defined.

(** What [canvas.toBlob(callback)] does: it throws at once (a canvas
    tainted by a cross-origin image), or it returns and calls the
    callback later with a blob or with [null]. *)
Inductive ToBlob :=
| toBlob_throws
| toBlob_calls_back (blob : bool).

(** The browser as the handler meets it. *)
Record Browser := mkBrowser {
  canvas_mounted : bool;
  toBlob : ToBlob;
  clipboard_write : bool;
  clipboard_writeText : bool
}.

(** A task: the actions it performed, and whether it ended normally
    ([Some]) or by throwing or rejecting ([None]). *)
Definition Task (A : Type) : Type := list Action * option A.

Definition done {A} (a : A) : Task A := ([], Some a).
Definition raise {A} : Task A := ([], None).
Definition act (a : Action) : Task unit := ([a], Some tt).

Definition andThen {A B} (t : Task A) (k : A → Task B) : Task B :=
  match t with
  | (log, Some a) => let '(log', r) := k a in ((log ++ log')%list, r)
  | (log, None) => (log, None)
  end.

Definition tryCatch {A} (body handler : Task A) : Task A :=
  match body with
  | (log, Some a) => (log, Some a)
  | (log, None) => let '(log', r) := handler in ((log ++ log')%list, r)
  end.

(** [await navigator.clipboard.write([item])] *)
Definition write_image (b : Browser) : Task unit :=
  andThen (act ClipboardWrite)
          (λ _, if clipboard_write b then done tt else raise).

(** [await navigator.clipboard.writeText(text)] *)
Definition write_text (b : Browser) (text : string) : Task unit :=
  andThen (act (ClipboardWriteText text))
          (λ _, if clipboard_writeText b then done tt else raise).

(** The [async (blob) => { ... }] callback given to [toBlob]. *)
Definition blob_callback (b : Browser) (blob : bool) : Task unit :=
  if blob
  then andThen (write_image b) (λ _, act (ShowSuccess "qr.copy.success"))
  else raise.

(** A promise nobody awaits: a rejection is reported by the host and
    reaches no [catch] clause. *)
Definition detached (t : Task unit) : list Action :=
  match t with
  | (log, Some _) => log
  | (log, None) => (log ++ [UnhandledRejection])%list
  end.

(** [canvasRef.current.toBlob(callback)] inside the [try]: either throws
    now, or returns now with the callback scheduled for later. *)
Definition call_toBlob (b : Browser) : Task (option bool) :=
  match toBlob b with
  | toBlob_throws => raise
  | toBlob_calls_back blob => done (Some blob)
  end.

(** [handleCopy]: the actions of the handler itself, followed by those of
    the callback when [toBlob] scheduled it. *)
Definition handleCopy (b : Browser) (fullUrl : string) : list Action :=
  if negb (canvas_mounted b) then []
  else
    let '(log, scheduled) :=
      tryCatch
        (call_toBlob b)
        (andThen (act (ConsoleError "Failed to copy QR code:")) (λ _,
           andThen
             (tryCatch
                (andThen (write_text b fullUrl)
                         (λ _, act (ShowSuccess "qr.copyUrl.success")))
                (act (ShowError "qr.copy.error")))
             (λ _, done None)))
    in
    match scheduled with
    | Some (Some blob) => (log ++ detached (blob_callback b blob))%list
    | _ => log
    end.

End QRCodeGenerator.

(* ===================================================================== *)
(** * The form controllers (link creation form and link edit dialog) *)
(* ===================================================================== *)

Module Forms.

Section Controllers.

(** Library functions: the URL parser and [dayjs] as for the schemas, the
    ISO rendering of a valid instant, and [intl.formatMessage] applied to
    a message id and, where the message has one, its [shortCode] value. *)
Variable parses_as_url : string → bool.
Variable dayjs_parse : Zod.Value → option Z.
Variable format_iso : Z → string.
Variable formatMessage : string → option string → string.

(** ** Default values *)

(** [defaultValues] of the creation form. *)
Definition create_defaults : Zod.Object :=
  {[ "originalUrl" := Zod.VString "";
     "description" := Zod.VString "";
     "startDateTime" := Zod.VNull;
     "endDateTime" := Zod.VNull;
     "withLogo" := Zod.VBoolean false;
     "qrSubtitle" := Zod.VString "" ]}.

(** [s ? dayjs(s) : null] for an optional date string of a link. *)
Definition date_default (s : option string) : Zod.Value :=
  match s with
  | Some d => if Js.truthy_string d
              then Zod.VDayjs (dayjs_parse (Zod.VString d))
              else Zod.VNull
  | None => Zod.VNull
  end.

(** [defaultValues] of the edit dialog for [link]. *)
Definition edit_defaults (link : Links.LinkEntry) : Zod.Object :=
  {[ "originalUrl" := Zod.VString (Links.originalUrl link);
     "description" := Zod.VString (Js.or_string (Links.description link) "");
     "enabled" := Zod.VBoolean (Links.enabled link);
     "startDateTime" := date_default (Links.startDateTime link);
     "endDateTime" := date_default (Links.endDateTime link);
     "withLogo" := Zod.VBoolean (Links.withLogo link);
     "qrSubtitle" := Zod.VString (Js.or_string (Links.qrSubtitle link) "") ]}.

(** ** URL preview of the creation form *)

(** [import.meta.env.VITE_APP_BASE_URL || window.location.origin] *)
Definition baseUrl (env : option string) (origin : string) : string :=
  Js.or_string env origin.

(** The effect on [watchedUrl]: the pair [(isValidUrl, urlPreview)] it
    sets. *)
Definition url_preview (env : option string) (origin watchedUrl : string)
  : bool * string :=
  if Js.truthy_string watchedUrl
  then if parses_as_url watchedUrl
       then (true, baseUrl env origin ++ "/s/abc123")
       else (false, "")
  else (false, "").

(** ** Submission *)

(** The validated data of the two forms ([z.infer] of the schemas). *)
Record LinkFormData := mkLinkFormData {
  originalUrl : string;
  description : option string;
  startDateTime : Zod.Value;
  endDateTime : Zod.Value;
  withLogo : option bool;
  qrSubtitle : option string
}.

Record EditLinkFormData := mkEditLinkFormData {
  e_originalUrl : string;
  e_description : option string;
  e_enabled : bool;
  e_startDateTime : Zod.Value;
  e_endDateTime : Zod.Value;
  e_withLogo : bool;
  e_qrSubtitle : option string
}.

(** [dayjs(v).toISOString()]: throws on an invalid date ([None]). *)
Definition toISOString (v : Zod.Value) : option string :=
  format_iso <$> Zod.dayjs dayjs_parse v.

(** [v ? dayjs(v).toISOString() : undefined]; the outer [None] is the
    exception. *)
Definition date_or_undefined (v : Zod.Value) : option (option string) :=
  if Zod.truthy v then Some <$> toISOString v else Some None.

Definition createData (data : LinkFormData) : option Links.CreateLinkDto :=
  start ← date_or_undefined (startDateTime data);
  finish ← date_or_undefined (endDateTime data);
  Some (Links.mkCreateLinkDto (originalUrl data) (description data)
          start finish (withLogo data) (qrSubtitle data)).

Definition updateData (data : EditLinkFormData) : option Links.UpdateLinkDto :=
  start ← date_or_undefined (e_startDateTime data);
  finish ← date_or_undefined (e_endDateTime data);
  Some (Links.mkUpdateLinkDto (Some (e_originalUrl data)) (e_description data)
          (Some (e_enabled data)) start finish (Some (e_withLogo data))
          (e_qrSubtitle data)).

(** What a submit handler acts on: the two stores, whether the form was
    reset or the dialog closed, and the argument [onSuccess] was called
    with. *)
Record Page := mkPage {
  store : Links.LinkState;
  toast : Toast.World;
  form_reset : bool;
  dialog_closed : bool;
  onSuccess_called : option (option string)
}.

(** [onSubmit] of the creation form; [reply] is the outcome of the HTTP
    call, if one is made. *)
Definition create_onSubmit (data : LinkFormData)
    (reply : Links.HttpResult Links.LinkEntry) (p : Page) : Page :=
  let cleared := Links.clearError (store p) in
  let failed (s : Links.LinkState) (message : option string) :=
    mkPage s
      (Toast.showError
         (Js.or_string message (formatMessage "link.create.error" None))
         None (toast p))
      (form_reset p) (dialog_closed p) (onSuccess_called p) in
  match createData data with
  | None => failed cleared None
  | Some createData =>
      match Links.run (Links.CreateLink createData) reply cleared with
      | (inr newLink, s) =>
          mkPage s
            (Toast.showSuccess
               (formatMessage "link.create.success"
                              (Some (Links.shortCode newLink)))
               None (toast p))
            true (dialog_closed p) (Some (Some (Links.shortCode newLink)))
      | (inl err, s) => failed s (Links.response_data_message err)
      end
  end.

(** [onSubmit] of the edit dialog for [link]. *)
Definition edit_onSubmit (link : Links.LinkEntry) (data : EditLinkFormData)
    (reply : Links.HttpResult Links.LinkEntry) (p : Page) : Page :=
  let cleared := Links.clearError (store p) in
  let failed (s : Links.LinkState) (message : option string) :=
    mkPage s
      (Toast.showError
         (Js.or_string message (formatMessage "link.edit.error" None))
         None (toast p))
      (form_reset p) (dialog_closed p) (onSuccess_called p) in
  match updateData data with
  | None => failed cleared None
  | Some updateData =>
      match Links.run (Links.UpdateLink (Links.id link) updateData) reply cleared with
      | (inr _, s) =>
          mkPage s
            (Toast.showSuccess
               (formatMessage "link.edit.success"
                              (Some (Links.shortCode link)))
               None (toast p))
            (form_reset p) true (Some None)
      | (inl err, s) => failed s (Links.response_data_message err)
      end
  end.

End Controllers.

End Forms.

(* ===================================================================== *)
(** * The dashboard page *)
(* ===================================================================== *)

Module Dashboard.

(** [s.includes(sub)]: [sub] occurs in [s] at some position. *)
Fixpoint includes (s sub : string) : bool :=
  String.prefix sub s ||
  match s with
  | EmptyString => false
  | String _ rest => includes rest sub
  end.

(** [getFullShortUrl]: the base URL is
    [import.meta.env.VITE_APP_BASE_URL || window.location.origin]. *)
Definition getFullShortUrl (env : option string) (origin shortCode : string)
  : string :=
  Js.or_string env origin ++ "/s/" ++ shortCode.

Inductive ChipColor := color_default | color_warning | color_error | color_success.

(** A status chip: the id of its label and its colour. *)
Record Chip := mkChip { label : string; color : ChipColor }.

Section Page.

Variable dayjs_parse : Zod.Value → option Z.
Variable toLowerCase : string → string.
Variable formatMessage : string → option string → string.

(** [s ? dayjs(s) : null]; the inner option is the instant of the Dayjs
    object, [None] for an invalid date. *)
Definition bound (s : option string) : option (option Z) :=
  match s with
  | Some d => if Js.truthy_string d
              then Some (dayjs_parse (Zod.VString d))
              else None
  | None => None
  end.

(** The date string [d] of a link denotes an instant that satisfies
    [holds]. *)
Definition denotes (d : option string) (holds : Z → Prop) : Prop :=
  ∃ s t, d = Some s ∧ s ≠ "" ∧ dayjs_parse (Zod.VString s) = Some t ∧ holds t.

(** [a.isAfter(b)] *)
Definition isAfter (a b : option Z) : bool := Zod.isBefore b a.

(** [getStatusChip], with [now] the instant of [dayjs()]. *)
Definition getStatusChip (now : Z) (link : Links.LinkEntry) : Chip :=
  let start := bound (Links.startDateTime link) in
  let finish := bound (Links.endDateTime link) in
  if negb (Links.enabled link)
  then mkChip "link.status.inactive" color_default
  else if match start with
          | Some t => Zod.isBefore (Some now) t
          | None => false
          end
  then mkChip "link.status.inactive" color_warning
  else if match finish with
          | Some t => isAfter (Some now) t
          | None => false
          end
  then mkChip "link.status.expired" color_error
  else mkChip "link.status.active" color_success.

(** The predicate of [filteredLinks]. *)
Definition matches (searchTerm : string) (link : Links.LinkEntry) : bool :=
  let search := toLowerCase searchTerm in
  includes (toLowerCase (Links.shortCode link)) search ||
  includes (toLowerCase (Links.originalUrl link)) search ||
  match Links.description link with
  | Some d => Js.truthy_string d && includes (toLowerCase d) search
  | None => false
  end.

Definition filteredLinks (searchTerm : string) (links : list Links.LinkEntry)
  : list Links.LinkEntry :=
  List.filter (matches searchTerm) links.

(** The page: the two stores, the link awaiting confirmation of its
    deletion, and the list refresh that was started and is not awaited,
    if any. *)
Record State := mkState {
  store : Links.LinkState;
  toast : Toast.World;
  deleteConfirmLink : option Links.LinkEntry;
  refresh : option (Links.Suspended (list Links.LinkEntry) unit)
}.

(** [getUserLinks()] called and not awaited. *)
Definition refresh_list (params : option Links.PaginationParams)
    (toast : Toast.World) (confirm : option Links.LinkEntry)
    (s : Links.LinkState) : State :=
  let '(k, s') := Links.getUserLinks params s in
  mkState s' toast confirm (Some k).

(** [handleDeleteConfirm]; [reply] is the outcome of the DELETE call. *)
Definition handleDeleteConfirm (reply : Links.HttpResult unit) (d : State)
  : State :=
  match deleteConfirmLink d with
  | None => d
  | Some link =>
      match Links.run (Links.DeleteLink (Links.id link)) reply (store d) with
      | (inr _, s) =>
          refresh_list None
            (Toast.showSuccess (formatMessage "link.delete.success" None) None
                               (toast d))
            None s
      | (inl _, s) =>
          mkState s
            (Toast.showError (formatMessage "link.delete.error" None) None
                             (toast d))
            (deleteConfirmLink d) (refresh d)
      end
  end.

(** The two calls of [onPaginationModelChange] on the store. *)
Definition page_params (page pageSize : Z) : Links.PaginationParams :=
  {[ "max" := Links.PNumber pageSize;
     "offset" := Links.PNumber (page * pageSize) ]}.

Definition onPaginationModelChange (page pageSize : Z) (d : State) : State :=
  refresh_list (Some (page_params page pageSize)) (toast d)
    (deleteConfirmLink d)
    (Links.setPagination (page_params page pageSize) (store d)).

End Page.

End Dashboard.

(* ===================================================================== *)
(** * The language preference ([cln/app/i18n.ts], [cln/app/root.tsx]) *)
(* ===================================================================== *)

Module I18n.

Definition locales : list string := ["en"; "th"].

Definition getDefaultLocale : string := "en".

(** [s.split('-')[0]]: what precedes the first dash. *)
Fixpoint before_dash (s : string) : string :=
  match s with
  | EmptyString => EmptyString
  | String c rest =>
      if Ascii.eqb c "-"%char then EmptyString else String c (before_dash rest)
  end.

(** [locales.includes(s)] *)
Definition is_locale (s : string) : bool := bool_decide (s ∈ locales).

(** The browser as [detectLocale] meets it: [localStorage], when there is
    one, and [navigator.language], when there is a navigator. *)
Record Browser := mkBrowser {
  localStorage : option (gmap string string);
  language : option string
}.

Definition key : string := "preferred-language".

Definition detectLocale (b : Browser) : string :=
  let from_browser :=
    match language b with
    | Some lang =>
        let browserLang := before_dash lang in
        if is_locale browserLang then browserLang else getDefaultLocale
    | None => getDefaultLocale
    end in
  match localStorage b with
  | Some items =>
      match items !! key with
      | Some storedLocale =>
          if Js.truthy_string storedLocale && is_locale storedLocale
          then storedLocale
          else from_browser
      | None => from_browser
      end
  | None => from_browser
  end.

(** [localStorage.setItem('preferred-language', locale)], as
    [handleLocaleChange] and [handleLanguageSelect] do, on the items of
    the storage. *)
Definition store_preference (locale : string) (items : gmap string string)
  : gmap string string :=
  <[key := locale]> items.

End I18n.

(* ===================================================================== *)
(** * Properties of the link store *)
(* ===================================================================== *)

Section LinkStoreFacts.

Import Links.

Lemma or_string_cases (m : option string) (fb : string) :
  Js.or_string m fb =
    match m with
    | Some s => if decide (s = "") then fb else s
    | None => fb
    end.
Proof.
  destruct m as [[|c s]|]; simpl; try reflexivity.
Qed.

(** The continuation of any operation, resumed with a rejected call on
    whatever the store holds at that moment, writes [isLoading] and
    [error] and nothing else, and rethrows. *)
Lemma resume_rejected (o : Operation) (err : AxiosError) (s s1 : LinkState) :
  resume (perform o s).1 (inl err) s1 =
    (inl err,
     assign s1 (with_isLoading false
                  (with_error
                     (Some (Js.or_string (response_data_message err) (fallback o)))
                     nothing))).
Proof. destruct o; reflexivity. Qed.

(** The synchronous prefix of any operation is
    [set({ isLoading: true, error: null })]. *)
Lemma perform_prefix (o : Operation) (s : LinkState) :
  (perform o s).2 = start_loading s.
Proof. destruct o; reflexivity. Qed.

Lemma run_unfold (o : Operation) (reply : HttpResult (Reply o)) (s : LinkState) :
  run o reply s = resume (perform o s).1 reply (perform o s).2.
Proof. unfold run. destruct (perform o s); reflexivity. Qed.

(** A resolved call ends with [isLoading] false and leaves [error] as it
    finds it, on whatever the store holds when it resumes. *)
Lemma resume_resolved (o : Operation) (r : AxiosResponse (Reply o))
    (s s1 : LinkState) :
  let s' := (resume (perform o s).1 (inr r) s1).2 in
  isLoading s' = false ∧ error s' = error s1.
Proof. destruct o; split; reflexivity. Qed.

End LinkStoreFacts.

(** C1 (as amended).  When the HTTP call of any of the twelve store
    operations fails, [links], [currentLink], [totalCount] and [pagination]
    are as they were before the call, the error is rethrown, and [error]
    holds the server's message when there is one and it is not the empty
    string, and the operation's fallback string otherwise. *)
Theorem failed_call_keeps_data_and_reports
    (o : Links.Operation) (err : Links.AxiosError) (s : Links.LinkState) :
  let s' := (Links.run o (inl err) s).2 in
  Links.links s' = Links.links s ∧
  Links.currentLink s' = Links.currentLink s ∧
  Links.totalCount s' = Links.totalCount s ∧
  Links.pagination s' = Links.pagination s ∧
  Links.error s' =
    Some (match Links.response_data_message err with
          | Some m => if decide (m = "") then Links.fallback o else m
          | None => Links.fallback o
          end) ∧
  (Links.run o (inl err) s).1 = inl err.
Proof.
  intros s'. subst s'.
  rewrite run_unfold, resume_rejected, perform_prefix, <- or_string_cases.
  repeat split.
Qed.

(** C1 (counterexample).  A server that answers with an empty [message]
    has provided a message, yet [error] is set to the fallback string. *)
Lemma empty_server_message_is_replaced :
  let err := Links.mkAxiosError
               (Some (Links.mkErrorResponse 400
                        (Some (Links.mkErrorBody (Some ""))))) in
  Links.response_data_message err = Some "" ∧
  Links.error (Links.run (Links.GetLinkById 7) (inl err) Links.initial).2
    = Some "Failed to fetch link" ∧
  Links.error (Links.run (Links.GetLinkById 7) (inl err) Links.initial).2
    ≠ Links.response_data_message err.
Proof. repeat split. discriminate. Qed.


Section ListFacts.

Context {A : Type}.

Lemma lookup_List_map (f : A → A) (l : list A) (i : nat) :
  List.map f l !! i = f <$> (l !! i).
Proof.
  revert i. induction l as [|x l IH]; intros [|i]; simpl; auto.
Qed.

Lemma List_filter_sublist (p : A → bool) (l : list A) :
  List.filter p l `sublist_of` l.
Proof.
  induction l as [|x l IH]; simpl.
  - constructor.
  - destruct (p x); [apply sublist_skip | apply sublist_cons]; exact IH.
Qed.

Lemma List_filter_Forall (p : A → bool) (l : list A) :
  Forall (λ x, p x = true) (List.filter p l).
Proof.
  induction l as [|x l IH]; simpl.
  - constructor.
  - destruct (p x) eqn:E; [constructor|]; assumption.
Qed.

(** [List.filter p l] is the greatest sublist of [l] whose elements all
    satisfy [p]. *)
Lemma List_filter_greatest (p : A → bool) (l k : list A) :
  k `sublist_of` l → Forall (λ x, p x = true) k →
  k `sublist_of` List.filter p l.
Proof.
  revert k. induction l as [|x l IH]; intros k Hsub Hall; simpl.
  - exact Hsub.
  - apply sublist_cons_r in Hsub as [Hsub | (k' & -> & Hsub)].
    + destruct (p x); [apply sublist_cons|]; apply IH; assumption.
    + inversion Hall as [|? ? Hx Hk']; subst.
      rewrite Hx. apply sublist_skip, IH; assumption.
Qed.

End ListFacts.

(** C2.  On success the store patches its list by object replacement:
    [createLink] puts the returned record in front of [links];
    [updateLink] puts the returned record at every position whose entry
    has the argument id and leaves every other position as it was, and
    does the same for [currentLink]; [deleteLink] leaves the greatest
    sublist of [links] whose entries do not have the argument id, that is,
    the other entries, unchanged and in their order. *)
Theorem success_patches_by_replacement :
  (∀ data newLink s,
     Links.links
       (Links.run (Links.CreateLink data) (inr (Links.mkResponse newLink)) s).2
     = newLink :: Links.links s) ∧
  (∀ id data updatedLink s,
     let s' := (Links.run (Links.UpdateLink id data)
                          (inr (Links.mkResponse updatedLink)) s).2 in
     length (Links.links s') = length (Links.links s) ∧
     (∀ i, Links.links s' !! i =
           (λ link, if decide (Links.id link = id) then updatedLink else link)
             <$> Links.links s !! i) ∧
     Links.currentLink s' =
       (λ link, if decide (Links.id link = id) then updatedLink else link)
         <$> Links.currentLink s) ∧
  (∀ id s,
     let s' := (Links.run (Links.DeleteLink id)
                          (inr (Links.mkResponse tt)) s).2 in
     Links.links s' `sublist_of` Links.links s ∧
     Forall (λ link, Links.id link ≠ id) (Links.links s') ∧
     (∀ kept, kept `sublist_of` Links.links s →
              Forall (λ link, Links.id link ≠ id) kept →
              kept `sublist_of` Links.links s')).
Proof.
  split; [|split].
  - reflexivity.
  - intros id data updatedLink s s'. subst s'. cbn.
    split; [apply length_map|]. split.
    + intros i. rewrite lookup_List_map.
      destruct (Links.links s !! i) as [link|]; simpl; [|reflexivity].
      f_equal. rewrite bool_decide_decide. destruct (decide _); reflexivity.
    + unfold Links.currentLink_has_id. cbn.
      destruct (Links.currentLink s) as [link|]; simpl; [|reflexivity].
      rewrite bool_decide_decide. destruct (decide _); reflexivity.
  - intros id s s'. subst s'. cbn.
    split; [apply List_filter_sublist|]. split.
    + eapply Forall_impl; [apply List_filter_Forall|].
      intros link Hp. simpl in Hp. apply negb_true_iff in Hp.
      apply bool_decide_eq_false in Hp. exact Hp.
    + intros kept Hsub Hall. apply List_filter_greatest; [exact Hsub|].
      eapply Forall_impl; [exact Hall|].
      intros link Hne. simpl. apply negb_true_iff.
      apply bool_decide_eq_false. exact Hne.
Qed.

(** C2 (witness).  Deleting link 2 from the list of links 1, 2, 3 keeps
    links 1 and 3, and a list that keeps link 1 only is below it. *)
Lemma success_patches_by_replacement_witness :
  let e n := Links.mkLinkEntry n "c" "https://example.org" None true None
               Links.safe None None false None 0 "t" "t" None
               (Links.mkUser 1 "u" "U" None false) 1 in
  let s := Links.mkLinkState [e 1; e 2; e 3] None false None 0 ∅ in
  [e 1] `sublist_of`
    Links.links (Links.run (Links.DeleteLink 2) (inr (Links.mkResponse tt)) s).2.
Proof.
  intros e s.
  apply (proj2 (proj2 (proj2 (proj2 success_patches_by_replacement) 2 s))).
  - apply sublist_skip, sublist_nil_l.
  - repeat constructor. simpl. lia.
Defined.

(** C10.  [setPagination(params)] merges: at every key, the resulting
    pagination holds the value of [params] when [params] has the key and
    the previous value otherwise; no other field of the store changes. *)
Theorem setPagination_merges (params : Links.PaginationParams) (s : Links.LinkState) :
  let s' := Links.setPagination params s in
  (∀ key, Links.pagination s' !! key =
          match params !! key with
          | Some v => Some v
          | None => Links.pagination s !! key
          end) ∧
  Links.links s' = Links.links s ∧
  Links.currentLink s' = Links.currentLink s ∧
  Links.isLoading s' = Links.isLoading s ∧
  Links.error s' = Links.error s ∧
  Links.totalCount s' = Links.totalCount s.
Proof.
  intros s'. subst s'. cbn. unfold Links.spread.
  split; [|repeat split].
  intros key. rewrite lookup_union.
  destruct (params !! key), (Links.pagination s !! key); reflexivity.
Qed.

Lemma stringify_params_lookup (p : Links.PaginationParams) (key : string) :
  Links.stringify_params p !! key =
    match p !! key with
    | Some Links.PUndefined => None
    | other => other
    end.
Proof.
  unfold Links.stringify_params.
  destruct (p !! key) as [v|] eqn:E.
  - destruct (decide (v = Links.PUndefined)) as [->|Hv].
    + apply map_lookup_filter_None. right. intros v' Hv'. simpl.
      rewrite E in Hv'. injection Hv' as <-. auto.
    + assert (filter (λ kv : string * Links.ParamValue, kv.2 ≠ Links.PUndefined) p
                !! key = Some v) as ->.
      { apply map_lookup_filter_Some. split; [exact E | exact Hv]. }
      destruct v; [contradiction | reflexivity | reflexivity].
  - apply map_lookup_filter_None. left. exact E.
Qed.

(** C5 (as amended).  The snapshot written to storage is a part of the
    store object that holds the key [pagination] and no other key of the
    store: [links], [currentLink],
    [isLoading], [error] and [totalCount] are absent.  Under [pagination]
    it holds the whole pagination object, that is, every key of it (page
    size, offset, sort column and order alike) whose value is defined. *)
Theorem snapshot_is_the_pagination_object (s : Links.LinkState) :
  Links.partialize s ⊆ Links.fields s ∧
  dom (Links.sv_state (Links.persisted s)) = {[ "pagination" ]} ∧
  Forall (λ key, Links.sv_state (Links.persisted s) !! key = None)
         ["links"; "currentLink"; "isLoading"; "error"; "totalCount"] ∧
  (∃ p, Links.persisted_pagination (Links.persisted s) = Some p ∧
        ∀ key, p !! key =
               match Links.pagination s !! key with
               | Some Links.PUndefined => None
               | other => other
               end).
Proof.
  split.
  { apply map_subseteq_spec. intros key v Hv. unfold Links.partialize in Hv.
    apply lookup_singleton_Some in Hv as [<- <-]. reflexivity. }
  unfold Links.persisted, Links.partialize, Links.persisted_pagination. cbn.
  rewrite map_fmap_singleton. cbn.
  split; [apply dom_singleton_L|]. split.
  - repeat constructor.
  - eexists. split; [rewrite lookup_singleton_eq; reflexivity|].
    apply stringify_params_lookup.
Qed.

(** C5 (counterexample).  In the snapshot of the initial store the offset,
    the sort column and the order are present beside the page size. *)
Lemma snapshot_holds_more_than_page_size :
  ∃ p, Links.persisted_pagination (Links.persisted Links.initial) = Some p ∧
       p !! "max" = Some (Links.PNumber 50) ∧
       p !! "offset" = Some (Links.PNumber 0) ∧
       p !! "sort" = Some (Links.PString "createdAt") ∧
       p !! "order" = Some (Links.PString "DESC").
Proof.
  unfold Links.persisted, Links.partialize, Links.persisted_pagination. cbn.
  rewrite map_fmap_singleton, lookup_singleton_eq. cbn.
  eexists. split; [reflexivity|].
  rewrite !stringify_params_lookup. repeat split.
Qed.

Section LinkStoreTraces.

Import Links.

Lemma start_unfold (o : Operation) (w : World) :
  start o w =
    mkWorld (start_loading (store w))
            (inflight w ++ [mkInFlight (started w) o (resume (perform o (store w)).1)])
            (S (started w)) None.
Proof.
  unfold start. pose proof (perform_prefix o (store w)) as Hs.
  destruct (perform o (store w)) as [k s1]. cbn in *. subst s1. reflexivity.
Qed.

Lemma settle_rejected_store i (f : InFlight) err w :
  genuine f →
  store (settle i f (inl err) w) =
    assign (store w)
      (with_isLoading false
         (with_error (Some (failure_message (mkFailure (ticket f) (op f) err)))
            nothing)).
Proof.
  intros [s0 Hk]. unfold settle. cbn. rewrite Hk, resume_rejected. reflexivity.
Qed.

Lemma settle_resolved_store i (f : InFlight) r w :
  genuine f →
  isLoading (store (settle i f (inr r) w)) = false ∧
  error (store (settle i f (inr r) w)) = error (store w).
Proof.
  intros [s0 Hk]. unfold settle. cbn. rewrite Hk. apply resume_resolved.
Qed.

Lemma tickets_delete i (w : World) :
  ticket <$> delete i (inflight w) = delete i (tickets w).
Proof.
  unfold tickets. generalize (inflight w) as l. revert i.
  induction i as [|i IH]; intros [|f l]; simpl; try reflexivity.
  f_equal. apply IH.
Qed.

Lemma NoDup_delete_lookup {A} i (l : list A) x :
  NoDup l → l !! i = Some x → x ∉ delete i l.
Proof.
  revert i. induction l as [|y l IH]; intros [|i] Hnd Hi; simpl in *;
    try discriminate.
  - injection Hi as ->. apply NoDup_cons in Hnd as [Hx _]. exact Hx.
  - apply NoDup_cons in Hnd as [Hy Hnd]. intros Hin.
    apply elem_of_cons in Hin as [->|Hin].
    + apply Hy. eapply list_elem_of_lookup_2. exact Hi.
    + eapply IH; eassumption.
Qed.

Lemma consistent_boot : consistent boot.
Proof.
  split; cbn; try constructor; try discriminate.
Qed.

Lemma consistent_start o w : consistent w → consistent (start o w).
Proof.
  intros [Hg Ht Hd Hl He]. rewrite start_unfold.
  split; unfold tickets in *; cbn.
  - apply Forall_app. split; [exact Hg|].
    constructor; [|constructor]. exists (store w). reflexivity.
  - rewrite fmap_app. apply Forall_app. split.
    + eapply Forall_impl; [exact Ht|]. cbn. lia.
    + constructor; [|constructor]. cbn. lia.
  - rewrite fmap_app. apply NoDup_app. split; [exact Hd|]. split.
    + intros t Hin Hin'. cbn in Hin'. apply list_elem_of_singleton in Hin'.
      subst t. rewrite Forall_forall in Ht. specialize (Ht _ Hin). lia.
    + cbn. apply NoDup_singleton.
  - intros _ Hnil. apply app_eq_nil in Hnil as [_ Hnil]. discriminate.
  - discriminate.
Qed.

Lemma consistent_later w w' : consistent w → later_step w w' → consistent w'.
Proof.
  intros [Hg Ht Hd Hl He] Hstep.
  destruct Hstep as [i f reply w Hi | link w | params w | w | w].
  - assert (genuine f) as Hf.
    { rewrite Forall_forall in Hg. apply Hg.
      eapply list_elem_of_lookup_2. exact Hi. }
    assert (ticket f ∉ delete i (tickets w)) as Hgone.
    { apply NoDup_delete_lookup; [exact Hd|].
      unfold tickets. rewrite list_lookup_fmap, Hi. reflexivity. }
    assert ((ticket f < started w)%nat) as Hissued.
    { rewrite Forall_forall in Ht. apply Ht. unfold tickets.
      apply list_elem_of_fmap. exists f. split; [reflexivity|].
      eapply list_elem_of_lookup_2. exact Hi. }
    split.
    + cbn. apply Forall_delete. exact Hg.
    + unfold tickets at 1. cbn. rewrite tickets_delete.
      apply Forall_delete. exact Ht.
    + unfold tickets. cbn. rewrite tickets_delete.
      eapply sublist_NoDup; [exact Hd|apply sublist_delete].
    + destruct reply as [err|r].
      * rewrite settle_rejected_store by exact Hf. discriminate.
      * destruct (settle_resolved_store i f r w Hf) as [-> _]. discriminate.
    + intros m Hm. destruct reply as [err|r].
      * rewrite settle_rejected_store in Hm by exact Hf. cbn in Hm.
        injection Hm as <-.
        exists (mkFailure (ticket f) (op f) err).
        unfold accounts_for, tickets. cbn. rewrite tickets_delete.
        split; [reflexivity|]. split; [reflexivity|].
        split; [exact Hissued | exact Hgone].
      * destruct (settle_resolved_store i f r w Hf) as [_ Herr].
        rewrite Herr in Hm. destruct (He m Hm) as (g & Hs & Hmsg & Hlt & Hnot).
        exists g. unfold accounts_for, tickets. cbn. rewrite tickets_delete.
        split; [exact Hs|]. split; [exact Hmsg|]. split; [exact Hlt|].
        intros Hin. apply Hnot.
        eapply elem_of_sublist; [exact Hin | apply sublist_delete].
  - split; assumption.
  - split; assumption.
  - split; try assumption. cbn. discriminate.
  - split; try assumption; cbn; discriminate.
Qed.

Lemma reachable_consistent w : reachable w → consistent w.
Proof.
  induction 1 as [|o w _ IH|w w' _ IH Hstep].
  - apply consistent_boot.
  - apply consistent_start, IH.
  - eapply consistent_later; eassumption.
Qed.

End LinkStoreTraces.

Section LinkStoreTurns.

Import Links.

Lemma in_turn_reachable w : reachable_in_turn w → reachable w.
Proof.
  induction 1 as [|o w _ IH _|w w' _ IH Hstep].
  - constructor.
  - apply reachable_start, IH.
  - eapply reachable_later; eassumption.
Qed.

Lemma in_turn_consistent w : reachable_in_turn w → consistent_in_turn w.
Proof.
  induction 1 as [|o w Hw IH Hidle|w w' Hw IH Hstep].
  - split; cbn; [constructor | discriminate].
  - rewrite start_unfold. split; unfold tickets; cbn.
    + rewrite Hidle. cbn. constructor; [reflexivity | constructor].
    + discriminate.
  - pose proof (reachable_consistent w (in_turn_reachable w Hw)) as Hc.
    destruct IH as [Hone Hlast].
    destruct Hstep as [i f reply w Hi | link w | params w | w | w].
    + assert (genuine f) as Hf.
      { pose proof (flights_genuine w Hc) as Hg.
        rewrite Forall_forall in Hg. apply Hg.
        eapply list_elem_of_lookup_2. exact Hi. }
      assert (S (ticket f) = started w) as Hticket.
      { rewrite Forall_forall in Hone. apply Hone. unfold tickets.
        apply list_elem_of_fmap. exists f. split; [reflexivity|].
        eapply list_elem_of_lookup_2. exact Hi. }
      split.
      * unfold tickets at 1. cbn. rewrite tickets_delete.
        apply Forall_delete. exact Hone.
      * intros m Hm. destruct reply as [err|r].
        -- rewrite settle_rejected_store in Hm by exact Hf. cbn in Hm.
           injection Hm as <-.
           exists (mkFailure (ticket f) (op f) err). cbn.
           split; [reflexivity|]. split; [reflexivity | exact Hticket].
        -- destruct (settle_resolved_store i f r w Hf) as [_ Herr].
           rewrite Herr in Hm. exact (Hlast m Hm).
    + split; assumption.
    + split; assumption.
    + split; [assumption | cbn; discriminate].
    + split; [assumption | cbn; discriminate].
Qed.

End LinkStoreTurns.

(** C9 (as amended).  Every operation begins by setting [isLoading] to
    true and [error] to null, and whenever its call settles, resolved or
    rejected and whatever the store then holds, it leaves [isLoading]
    false: the store is loading only while some operation is in flight.
    A non-null [error] is the message of the failure that settled last,
    with no operation started since; it belongs to an operation that is no
    longer in flight.  When operations take turns (none is started while
    another is in flight) that operation is the one started last. *)
Theorem loading_is_bracketed_and_error_has_a_source :
  (∀ o s, Links.isLoading (Links.perform o s).2 = true ∧
          Links.error (Links.perform o s).2 = None) ∧
  (∀ o reply s s1,
     Links.isLoading (Links.resume (Links.perform o s).1 reply s1).2 = false) ∧
  (∀ w, Links.reachable w →
        (Links.isLoading (Links.store w) = true → Links.inflight w ≠ []) ∧
        (∀ m, Links.error (Links.store w) = Some m →
              ∃ f, Links.accounts_for w f m)) ∧
  (∀ w, Links.reachable_in_turn w →
        ∀ m, Links.error (Links.store w) = Some m →
             ∃ f, Links.error_source w = Some f ∧
                  m = Links.failure_message f ∧
                  S (Links.failed_ticket f) = Links.started w).
Proof.
  split; [|split; [|split]].
  - intros o s. rewrite perform_prefix. split; reflexivity.
  - intros o [err|r] s s1.
    + rewrite resume_rejected. reflexivity.
    + apply resume_resolved.
  - intros w Hw. apply reachable_consistent in Hw.
    split; [apply Links.loading_has_cause | apply Links.error_has_source];
      exact Hw.
  - intros w Hw. apply in_turn_consistent in Hw.
    apply Links.error_of_the_last. exact Hw.
Qed.

(** C9 (witness).  A lookup of link 7 that is started on the fresh store
    and fails without a response: the error is that operation's fallback
    and the operation is the one started last. *)
Lemma loading_is_bracketed_and_error_has_a_source_witness :
  let k := Links.mkInFlight 0 (Links.GetLinkById 7)
             (Links.resume (Links.perform (Links.GetLinkById 7) Links.initial).1) in
  let w := Links.settle 0 k (inl (Links.mkAxiosError None))
             (Links.start (Links.GetLinkById 7) Links.boot) in
  ∃ f, Links.error_source w = Some f ∧
       "Failed to fetch link" = Links.failure_message f ∧
       S (Links.failed_ticket f) = Links.started w.
Proof.
  intros k w.
  apply (proj2 (proj2 (proj2 loading_is_bracketed_and_error_has_a_source)) w).
  - apply Links.in_turn_later with (w := Links.start (Links.GetLinkById 7) Links.boot).
    + apply Links.in_turn_start; [apply Links.in_turn_boot | reflexivity].
    + apply Links.step_settle. reflexivity.
  - reflexivity.
Defined.

(** C9 (counterexample).  A lookup of link 7 is started, then a deletion
    of link 2; the lookup fails while the deletion is still in flight.
    The store is reachable, its [error] is the lookup's message, and the
    lookup (ticket 0) is not the operation started last (ticket 1). *)
Lemma error_of_an_overtaken_operation :
  let lookup := Links.mkInFlight 0 (Links.GetLinkById 7)
             (Links.resume (Links.perform (Links.GetLinkById 7) Links.initial).1) in
  let w := Links.settle 0 lookup (inl (Links.mkAxiosError None))
             (Links.start (Links.DeleteLink 2)
                (Links.start (Links.GetLinkById 7) Links.boot)) in
  Links.reachable w ∧
  Links.error (Links.store w) = Some "Failed to fetch link" ∧
  Links.op <$> Links.inflight w = [Links.DeleteLink 2] ∧
  Links.tickets w = [1%nat] ∧
  Links.started w = 2%nat ∧
  (Links.failed_op <$> Links.error_source w) = Some (Links.GetLinkById 7) ∧
  (Links.failed_ticket <$> Links.error_source w) = Some 0%nat.
Proof.
  intros lookup w. split; [|repeat split].
  eapply Links.reachable_later.
  - apply Links.reachable_start, Links.reachable_start, Links.reachable_boot.
  - apply Links.step_settle. reflexivity.
Qed.

(* ===================================================================== *)
(** * Properties of the toast store *)
(* ===================================================================== *)

Section ToastFacts.

Import Toast.

Lemma clear_existing_timers w :
  timers (clear_existing w) =
    match timeoutId (state w) with
    | Some id => delete id (timers w)
    | None => timers w
    end.
Proof. unfold clear_existing. destruct (timeoutId (state w)); reflexivity. Qed.

Lemma clear_existing_state w : state (clear_existing w) = state w.
Proof. unfold clear_existing. destruct (timeoutId (state w)); reflexivity. Qed.

Lemma clear_existing_next w : next_timer (clear_existing w) = next_timer w.
Proof. unfold clear_existing. destruct (timeoutId (state w)); reflexivity. Qed.

(** In a tidy world, clearing the timer of the state clears all timers. *)
Lemma tidy_clear_existing w : tidy w → timers (clear_existing w) = ∅.
Proof.
  intros Hw. rewrite clear_existing_timers. apply map_empty. intros id.
  destruct (timeoutId (state w)) as [id'|] eqn:E.
  - destruct (decide (id' = id)) as [->|Hne].
    + apply lookup_delete_eq.
    + rewrite lookup_delete_ne by exact Hne.
      destruct (timers w !! id) as [d|] eqn:Ed; [|reflexivity].
      assert (timeoutId (state w) = Some id) as Heq
        by (apply Hw; rewrite Ed; eauto).
      congruence.
  - destruct (timers w !! id) as [d|] eqn:Ed; [|reflexivity].
    assert (timeoutId (state w) = Some id) as Heq
      by (apply Hw; rewrite Ed; eauto).
    congruence.
Qed.

Lemma tidy_size w : tidy w → (size (timers w) ≤ 1)%nat.
Proof.
  intros Hw. destruct (timeoutId (state w)) as [id|] eqn:E.
  - destruct (timers w !! id) as [d|] eqn:Ed.
    + assert (timers w = {[ id := d ]}) as ->.
      { apply map_eq. intros j. destruct (decide (id = j)) as [<-|Hne].
        - rewrite lookup_singleton_eq. exact Ed.
        - rewrite lookup_singleton_ne by exact Hne.
          destruct (timers w !! j) as [d'|] eqn:Ej; [|reflexivity].
          assert (timeoutId (state w) = Some j) as Heq
            by (apply Hw; rewrite Ej; eauto).
          congruence. }
      rewrite map_size_singleton. lia.
    + assert (timers w = ∅) as ->.
      { apply map_empty. intros j.
        destruct (timers w !! j) as [d'|] eqn:Ej; [|reflexivity].
        assert (timeoutId (state w) = Some j) as Heq
            by (apply Hw; rewrite Ej; eauto).
        congruence. }
      rewrite map_size_empty. lia.
  - assert (timers w = ∅) as ->.
    { apply map_empty. intros j.
      destruct (timers w !! j) as [d'|] eqn:Ej; [|reflexivity].
      assert (timeoutId (state w) = Some j) as Heq
        by (apply Hw; rewrite Ej; eauto).
      congruence. }
    rewrite map_size_empty. lia.
Qed.

Lemma showToast_unfold m sev d pos w :
  showToast m sev d pos w =
    mkWorld
      (mkToastState true m (default info sev) (default 5000 d)
                    (default bottom_right pos) (Some (next_timer w)))
      (<[next_timer w := default 5000 d]> (timers (clear_existing w)))
      (Pos.succ (next_timer w)).
Proof.
  unfold showToast, showToast_clear, setTimeout, set. cbn.
  rewrite clear_existing_next. reflexivity.
Qed.

Lemma tidy_boot : tidy boot.
Proof. intros id [d Hd]. cbn in Hd. rewrite lookup_empty in Hd. discriminate. Qed.

Lemma tidy_step w w' : tidy w → step w w' → tidy w'.
Proof.
  intros Hw Hstep. destruct Hstep as [m sev d pos w | w | id w Hid].
  - rewrite showToast_unfold. intros id [x Hx]. cbn in *.
    rewrite tidy_clear_existing in Hx by exact Hw.
    destruct (decide (next_timer w = id)) as [->|Hne]; [reflexivity|].
    rewrite lookup_insert_ne, lookup_empty in Hx by exact Hne. discriminate.
  - intros id [x Hx]. unfold hideToast, set in Hx. cbn in Hx.
    rewrite tidy_clear_existing in Hx by exact Hw.
    rewrite lookup_empty in Hx. discriminate.
  - intros j [x Hx]. unfold expire, set in Hx. cbn in Hx.
    destruct (decide (id = j)) as [->|Hne].
    + rewrite lookup_delete_eq in Hx. discriminate.
    + rewrite lookup_delete_ne in Hx by exact Hne.
      assert (timeoutId (state w) = Some id) as H1 by (apply Hw; exact Hid).
      assert (timeoutId (state w) = Some j) as H2
        by (apply Hw; rewrite Hx; eauto).
      congruence.
Qed.

Lemma reachable_tidy w : reachable w → tidy w.
Proof.
  induction 1 as [|w w' _ IH Hstep].
  - apply tidy_boot.
  - eapply tidy_step; eassumption.
Qed.

End ToastFacts.

(** C7.  The toast store holds at most one pending timer at any time.  A
    call of [showToast] first clears the pending timer, leaving none, then
    starts one, which is afterwards the only pending timer; the state then
    shows [open = true], the timer's handle, and the message, severity,
    duration and position of the call (their defaults where the call omits
    them), whatever was displayed before. *)
Theorem showToast_keeps_a_single_timer
    (w : Toast.World) (Hw : Toast.reachable w)
    (message : string) (severity : option Toast.ToastSeverity)
    (duration : option Z) (position : option Toast.ToastPosition) :
  (size (Toast.timers w) ≤ 1)%nat ∧
  Toast.timers (Toast.showToast_clear w) = ∅ ∧
  Toast.timers (Toast.showToast message severity duration position w)
    = {[ Toast.next_timer w := default 5000 duration ]} ∧
  size (Toast.timers (Toast.showToast message severity duration position w)) = 1%nat ∧
  Toast.state (Toast.showToast message severity duration position w)
    = Toast.mkToastState true message (default Toast.info severity)
        (default 5000 duration) (default Toast.bottom_right position)
        (Some (Toast.next_timer w)).
Proof.
  apply reachable_tidy in Hw.
  split; [apply tidy_size; exact Hw|].
  split; [apply (tidy_clear_existing w Hw)|].
  rewrite showToast_unfold. cbn. rewrite (tidy_clear_existing w Hw).
  split; [apply insert_empty|]. split; [|reflexivity].
  rewrite insert_empty. apply map_size_singleton.
Qed.

(** C7 (witness).  A second toast shown while the first is still pending:
    the first timer (handle 1) is gone and the second (handle 2) is the
    only one. *)
Lemma showToast_keeps_a_single_timer_witness :
  let w := Toast.showToast "Link created" (Some Toast.success) None None Toast.boot in
  Toast.timers (Toast.showToast "Failed to delete link" (Some Toast.error)
                                (Some 3000) None w)
    = {[ 2%positive := 3000 ]}.
Proof.
  intros w.
  apply (showToast_keeps_a_single_timer w).
  eapply Toast.reachable_step; [apply Toast.reachable_boot|].
  apply Toast.step_showToast.
Defined.

(** C8.  For every toast state, [hideToast] clears the timer the state
    refers to and sets [open] to false and [timeoutId] to null, and leaves
    message, severity, duration and position as they are; in a reachable
    world no timer is pending afterwards. *)
Theorem hideToast_keeps_the_message (w : Toast.World) :
  let w' := Toast.hideToast w in
  Toast.open (Toast.state w') = false ∧
  Toast.timeoutId (Toast.state w') = None ∧
  Toast.message (Toast.state w') = Toast.message (Toast.state w) ∧
  Toast.severity (Toast.state w') = Toast.severity (Toast.state w) ∧
  Toast.duration (Toast.state w') = Toast.duration (Toast.state w) ∧
  Toast.position (Toast.state w') = Toast.position (Toast.state w) ∧
  (∀ id, Toast.timeoutId (Toast.state w) = Some id →
         Toast.timers w' !! id = None) ∧
  (Toast.reachable w → Toast.timers w' = ∅).
Proof.
  intros w'. subst w'. unfold Toast.hideToast, Toast.set. cbn.
  rewrite clear_existing_state, clear_existing_timers.
  repeat split.
  - intros id Hid. rewrite Hid. apply lookup_delete_eq.
  - intros Hw. rewrite <- clear_existing_timers.
    apply tidy_clear_existing, reachable_tidy, Hw.
Qed.

(** C8 (witness).  Hiding a toast that is on display: its timer is no
    longer pending, and no timer is. *)
Lemma hideToast_keeps_the_message_witness :
  let w := Toast.showToast "Link created" (Some Toast.success) None None Toast.boot in
  Toast.timers (Toast.hideToast w) !! 1%positive = None ∧
  Toast.timers (Toast.hideToast w) = ∅.
Proof.
  intros w.
  pose proof (hideToast_keeps_the_message w) as H. cbv zeta in H.
  destruct H as (_ & _ & _ & _ & _ & _ & Hid & Hall).
  split.
  - apply Hid. reflexivity.
  - apply Hall. eapply Toast.reachable_step; [apply Toast.reachable_boot|].
    apply Toast.step_showToast.
Defined.

(* ===================================================================== *)
(** * Properties of the form schemas *)
(* ===================================================================== *)

Section SchemaFacts.

Import Zod.

Variable parses_as_url : string → bool.
Variable dayjs_parse : Value → option Z.

Lemma merge_valid (a b : Status) : merge a b = valid ↔ a = valid ∧ b = valid.
Proof. destruct a, b; simpl; split; intros; intuition congruence. Qed.

Lemma parse_shape_cons key t rest (o : Object) :
  (parse_shape parses_as_url ((key, t) :: rest) o).1 =
    merge (parse parses_as_url t [key] (prop o key)).1
          (parse_shape parses_as_url rest o).1.
Proof.
  simpl. destruct (parse parses_as_url t [key] (prop o key)).
  destruct (parse_shape parses_as_url rest o). reflexivity.
Qed.

Lemma prop_strip (shape : Shape) (o : Object) key :
  key ∈ shape.*1 → prop (strip shape o) key = prop o key.
Proof.
  intros Hkey. unfold prop, strip.
  destruct (o !! key) as [v|] eqn:E.
  - erewrite map_lookup_filter_Some_2; [reflexivity | exact E | exact Hkey].
  - rewrite map_lookup_filter_None_2; [reflexivity | left; exact E].
Qed.

Lemma accepts_iff (schema : Refined) (o : Object) :
  accepts parses_as_url schema o = true ↔
    (parse_shape parses_as_url (shape schema) o).1 = valid ∧
    check schema (strip (shape schema) o) = true.
Proof.
  unfold accepts, parse_refined.
  destruct (parse_shape parses_as_url (shape schema) o) as [st issues].
  destruct st, (check schema (strip (shape schema) o)); simpl;
    split; intros; intuition congruence.
Qed.

Lemma parse_url_field path v :
  (parse parses_as_url
     (url "Please enter a valid URL" (min 1 "URL is required" z_string))
     path v).1 = valid
  ↔ url_field_ok parses_as_url v.
Proof.
  unfold url_field_ok. destruct v as [| |b|n|s|t]; simpl;
    try (split; [discriminate | intros (s' & H & _); discriminate]).
  destruct s as [|c s]; simpl.
  - split; [discriminate | intros (s' & H & Hne & _)].
    injection H as <-. contradiction.
  - destruct (parses_as_url (String c s)) eqn:E; simpl.
    + split; [intros _ | reflexivity].
      exists (String c s). split; [reflexivity|]. split; [discriminate | exact E].
    + split; [discriminate | intros (s' & H & _ & Hp)].
      injection H as <-. congruence.
Qed.

Lemma parse_optional_string path v :
  (parse parses_as_url (optional z_string) path v).1 = valid ↔ absent_or_string v.
Proof.
  unfold absent_or_string. destruct v; simpl; split; intros H;
    try discriminate; try reflexivity; eauto;
    destruct H as [H|[s' H]]; discriminate.
Qed.

Lemma parse_optional_boolean path v :
  (parse parses_as_url (optional z_boolean) path v).1 = valid ↔ absent_or_boolean v.
Proof.
  unfold absent_or_boolean. destruct v; simpl; split; intros H;
    try discriminate; try reflexivity; eauto;
    destruct H as [H|[s' H]]; discriminate.
Qed.

Lemma parse_boolean path v :
  (parse parses_as_url z_boolean path v).1 = valid ↔ is_boolean v.
Proof.
  unfold is_boolean. destruct v; simpl; split; intros H;
    try discriminate; try reflexivity; eauto;
    destruct H as [s' H]; discriminate.
Qed.

Lemma parse_optional_any path v :
  (parse parses_as_url (optional z_any) path v).1 = valid.
Proof. destruct v; reflexivity. Qed.

Lemma isBefore_iff a b :
  isBefore a b = true ↔ ∃ x y, a = Some x ∧ b = Some y ∧ x < y.
Proof.
  destruct a as [x|], b as [y|]; simpl.
  - rewrite Z.ltb_lt. split.
    + intros H. exists x, y. auto.
    + intros (x' & y' & Hx & Hy & H). congruence.
  - split; [discriminate | intros (x' & y' & _ & Hy & _); discriminate].
  - split; [discriminate | intros (x' & y' & Hx & _ & _); discriminate].
  - split; [discriminate | intros (x' & y' & Hx & _ & _); discriminate].
Qed.

Lemma dates_in_order_iff (data : Object) :
  dates_in_order dayjs_parse data = true ↔
    (truthy (prop data "startDateTime") = true →
     truthy (prop data "endDateTime") = true →
     strictly_before dayjs_parse (prop data "startDateTime")
                                 (prop data "endDateTime")).
Proof.
  unfold dates_in_order, strictly_before.
  destruct (truthy (prop data "startDateTime")),
           (truthy (prop data "endDateTime")); simpl.
  - rewrite isBefore_iff. split; [intros H _ _; exact H | intros H; auto].
  - split; [intros _ _ H; discriminate | reflexivity].
  - split; [intros _ H; discriminate | reflexivity].
  - split; [intros _ H; discriminate | reflexivity].
Qed.

Lemma linkSchema_accepts_iff (o : Object) :
  accepts parses_as_url (linkSchema dayjs_parse) o = true ↔
    url_field_ok parses_as_url (prop o "originalUrl") ∧
    absent_or_string (prop o "description") ∧
    absent_or_boolean (prop o "withLogo") ∧
    absent_or_string (prop o "qrSubtitle") ∧
    (truthy (prop o "startDateTime") = true →
     truthy (prop o "endDateTime") = true →
     strictly_before dayjs_parse (prop o "startDateTime") (prop o "endDateTime")).
Proof.
  rewrite accepts_iff.
  unfold linkSchema, refine, z_object. cbn [shape check refine_message refine_path].
  rewrite dates_in_order_iff.
  rewrite !prop_strip by (cbn; set_solver).
  rewrite !parse_shape_cons, !merge_valid.
  rewrite parse_url_field, !parse_optional_string, parse_optional_boolean,
    !parse_optional_any.
  cbn [parse_shape fst]. tauto.
Qed.

Lemma editLinkSchema_accepts_iff (o : Object) :
  accepts parses_as_url (editLinkSchema dayjs_parse) o = true ↔
    url_field_ok parses_as_url (prop o "originalUrl") ∧
    absent_or_string (prop o "description") ∧
    is_boolean (prop o "enabled") ∧
    is_boolean (prop o "withLogo") ∧
    absent_or_string (prop o "qrSubtitle") ∧
    (truthy (prop o "startDateTime") = true →
     truthy (prop o "endDateTime") = true →
     strictly_before dayjs_parse (prop o "startDateTime") (prop o "endDateTime")).
Proof.
  rewrite accepts_iff.
  unfold editLinkSchema, refine, z_object. cbn [shape check refine_message refine_path].
  rewrite dates_in_order_iff.
  rewrite !prop_strip by (cbn; set_solver).
  rewrite !parse_shape_cons, !merge_valid.
  rewrite parse_url_field, !parse_optional_string, !parse_boolean,
    !parse_optional_any.
  cbn [parse_shape fst]. tauto.
Qed.

End SchemaFacts.

(** C3 (as amended).  [linkSchema] accepts an object exactly when
    [originalUrl] is a non-empty string that parses as an absolute URL,
    [description] and [qrSubtitle] are each absent or a string, [withLogo]
    is absent or a boolean and, whenever [startDateTime] and [endDateTime]
    are both truthy, the start is strictly before the end.
    [editLinkSchema] accepts under the same conditions, except that
    [enabled] and [withLogo] must both be booleans. *)
Theorem schemas_accept_exactly
    (parses_as_url : string → bool) (dayjs_parse : Zod.Value → option Z)
    (o : Zod.Object) :
  (Zod.accepts parses_as_url (Zod.linkSchema dayjs_parse) o = true ↔
     Zod.url_field_ok parses_as_url (Zod.prop o "originalUrl") ∧
     Zod.absent_or_string (Zod.prop o "description") ∧
     Zod.absent_or_boolean (Zod.prop o "withLogo") ∧
     Zod.absent_or_string (Zod.prop o "qrSubtitle") ∧
     (Zod.truthy (Zod.prop o "startDateTime") = true →
      Zod.truthy (Zod.prop o "endDateTime") = true →
      Zod.strictly_before dayjs_parse (Zod.prop o "startDateTime")
                                      (Zod.prop o "endDateTime"))) ∧
  (Zod.accepts parses_as_url (Zod.editLinkSchema dayjs_parse) o = true ↔
     Zod.url_field_ok parses_as_url (Zod.prop o "originalUrl") ∧
     Zod.absent_or_string (Zod.prop o "description") ∧
     Zod.is_boolean (Zod.prop o "enabled") ∧
     Zod.is_boolean (Zod.prop o "withLogo") ∧
     Zod.absent_or_string (Zod.prop o "qrSubtitle") ∧
     (Zod.truthy (Zod.prop o "startDateTime") = true →
      Zod.truthy (Zod.prop o "endDateTime") = true →
      Zod.strictly_before dayjs_parse (Zod.prop o "startDateTime")
                                      (Zod.prop o "endDateTime"))).
Proof.
  split; [apply linkSchema_accepts_iff | apply editLinkSchema_accepts_iff].
Qed.

(** C3 (witness).  A creation form with a URL and a date window of one
    hour that is in order is accepted. *)
Lemma schemas_accept_exactly_witness :
  let url_parser := String.prefix "https://" in
  let o : Zod.Object :=
    {[ "originalUrl" := Zod.VString "https://example.org/a";
       "description" := Zod.VString "";
       "startDateTime" := Zod.VDayjs (Some 1700000000000);
       "endDateTime" := Zod.VDayjs (Some 1700003600000);
       "withLogo" := Zod.VBoolean false;
       "qrSubtitle" := Zod.VString "" ]} in
  Zod.accepts url_parser (Zod.linkSchema (λ _, None)) o = true.
Proof.
  intros url_parser o.
  apply (proj1 (schemas_accept_exactly url_parser (λ _, None) o)).
  split; [|split; [|split; [|split]]].
  - exists "https://example.org/a". repeat split. discriminate.
  - right. exists "". reflexivity.
  - right. exists false. reflexivity.
  - right. exists "". reflexivity.
  - intros _ _. exists 1700000000000, 1700003600000. repeat split.
Defined.

(** C3 (counterexample).  With a URL field that is a non-empty string and
    parses, and no dates at all, [editLinkSchema] rejects an object that
    lacks [enabled], and [linkSchema] rejects one whose [description] is a
    number. *)
Lemma schemas_also_check_types :
  let url_parser := String.prefix "https://" in
  let edited : Zod.Object :=
    {[ "originalUrl" := Zod.VString "https://example.org/a";
       "withLogo" := Zod.VBoolean true ]} in
  let created : Zod.Object :=
    {[ "originalUrl" := Zod.VString "https://example.org/a";
       "description" := Zod.VNumber 5 ]} in
  (Zod.url_field_ok url_parser (Zod.prop edited "originalUrl") ∧
   Zod.prop edited "startDateTime" = Zod.VUndefined ∧
   Zod.prop edited "endDateTime" = Zod.VUndefined ∧
   Zod.accepts url_parser (Zod.editLinkSchema (λ _, None)) edited = false) ∧
  (Zod.url_field_ok url_parser (Zod.prop created "originalUrl") ∧
   Zod.prop created "startDateTime" = Zod.VUndefined ∧
   Zod.prop created "endDateTime" = Zod.VUndefined ∧
   Zod.accepts url_parser (Zod.linkSchema (λ _, None)) created = false).
Proof.
  intros url_parser edited created. split.
  - split; [|repeat split].
    exists "https://example.org/a". repeat split. discriminate.
  - split; [|repeat split].
    exists "https://example.org/a". repeat split. discriminate.
Qed.

(* ===================================================================== *)
(** * Properties of the QR component *)
(* ===================================================================== *)

Section QRFacts.

Import QRCodeGenerator.

Lemma areHookInputsEqual_deps (next prev : Render) :
  areHookInputsEqual (deps next) (deps prev) = true ↔
    size next = size prev ∧
    errorCorrectionLevel next = errorCorrectionLevel prev ∧
    Links.withLogo (link next) = Links.withLogo (link prev) ∧
    Links.qrSubtitle (link next) = Links.qrSubtitle (link prev).
Proof.
  unfold deps, areHookInputsEqual, object_is.
  rewrite !andb_true_iff, !bool_decide_eq_true.
  split.
  - intros (H1 & H2 & H3 & H4 & _). repeat split; congruence.
  - intros (-> & -> & -> & ->). repeat split.
Qed.

(** After a re-render the effect runs exactly when the size, the error
    correction level, the logo flag or the subtitle changed. *)
Lemma effect_runs_iff (prev next : Render) :
  effect_runs (Some prev) next = true ↔
    size next ≠ size prev ∨
    errorCorrectionLevel next ≠ errorCorrectionLevel prev ∨
    Links.withLogo (link next) ≠ Links.withLogo (link prev) ∨
    Links.qrSubtitle (link next) ≠ Links.qrSubtitle (link prev).
Proof.
  unfold effect_runs. rewrite negb_true_iff, <- not_true_iff_false.
  rewrite areHookInputsEqual_deps.
  destruct (decide (size next = size prev)),
           (decide (errorCorrectionLevel next = errorCorrectionLevel prev)),
           (decide (Links.withLogo (link next) = Links.withLogo (link prev))),
           (decide (Links.qrSubtitle (link next) = Links.qrSubtitle (link prev)));
    tauto.
Qed.

(** Membership of an action in a log none of whose entries it equals. *)
Ltac absent H :=
  repeat (apply elem_of_cons in H as [H|H]; [discriminate|]);
  apply elem_of_nil in H; contradiction.

(** The URL copy is attempted only when [toBlob] itself throws. *)
Lemma handleCopy_falls_back_iff (b : Browser) (fullUrl : string) :
  ClipboardWriteText fullUrl ∈ handleCopy b fullUrl ↔
    canvas_mounted b = true ∧ toBlob b = toBlob_throws.
Proof.
  destruct b as [mounted blob write writeText].
  unfold handleCopy, call_toBlob, blob_callback, write_image, write_text.
  destruct mounted; cbn.
  - destruct blob as [|[|]]; cbn.
    + destruct writeText; cbn;
        (split; [intros _; split; reflexivity |
                 intros _; apply list_elem_of_further, list_elem_of_here]).
    + destruct write; cbn;
        (split; [intros Hin; absent Hin | intros [_ Hb]; discriminate]).
    + split; [intros Hin; absent Hin | intros [_ Hb]; discriminate].
  - split; [intros Hin; absent Hin | intros [Hm _]; discriminate].
Qed.

End QRFacts.

(** C4 (evaluation of the code).  A re-render in which only the target URL
    differs does not run the effect: [generateQRCode] is not called, and
    the canvas keeps the picture painted for the previous URL. *)
Theorem url_change_does_not_regenerate
    (logo_loads : bool) (r : QRCodeGenerator.Render) (u : string) :
  QRCodeGenerator.effect_runs (Some r) (QRCodeGenerator.with_fullUrl u r) = false ∧
  QRCodeGenerator.canvas
    (QRCodeGenerator.render_all logo_loads [r; QRCodeGenerator.with_fullUrl u r])
    = Some (QRCodeGenerator.generateQRCode logo_loads r) ∧
  QRCodeGenerator.text (QRCodeGenerator.generateQRCode logo_loads r)
    = QRCodeGenerator.fullUrl r.
Proof.
  assert (QRCodeGenerator.effect_runs (Some r) (QRCodeGenerator.with_fullUrl u r)
          = false) as Hskip.
  { apply not_true_iff_false. rewrite effect_runs_iff. cbn. tauto. }
  split; [exact Hskip|]. split.
  - unfold QRCodeGenerator.render_all. cbn [fold_left].
    unfold QRCodeGenerator.commit at 1. cbn [QRCodeGenerator.previous].
    cbn [QRCodeGenerator.commit QRCodeGenerator.unmounted
         QRCodeGenerator.previous QRCodeGenerator.canvas].
    rewrite Hskip. reflexivity.
  - unfold QRCodeGenerator.generateQRCode.
    destruct (Links.withLogo (QRCodeGenerator.link r)), logo_loads; reflexivity.
Qed.

(** C6 (evaluation of the code).  When [toBlob] delivers a blob and the
    clipboard refuses the image, the handler writes nothing else: the
    rejection of the callback reaches no [catch] clause, the URL is not
    copied and no toast is shown.  The same holds when [toBlob] delivers
    no blob. *)
Theorem image_copy_failure_is_not_caught
    (writeText_works write_works : bool) (fullUrl : string) :
  QRCodeGenerator.handleCopy
    (QRCodeGenerator.mkBrowser true (QRCodeGenerator.toBlob_calls_back true)
                               false writeText_works) fullUrl
    = [QRCodeGenerator.ClipboardWrite; QRCodeGenerator.UnhandledRejection] ∧
  QRCodeGenerator.handleCopy
    (QRCodeGenerator.mkBrowser true (QRCodeGenerator.toBlob_calls_back false)
                               write_works writeText_works) fullUrl
    = [QRCodeGenerator.UnhandledRejection].
Proof. split; reflexivity. Qed.

(* ===================================================================== *)
(** * Further properties of the link store *)
(* ===================================================================== *)

Section LinkStoreMore.

Import Links.

Lemma resume_totalCount (o : Operation) (reply : HttpResult (Reply o))
    (s s1 : LinkState) :
  totalCount (resume (perform o s).1 reply s1).2 = totalCount s1.
Proof. destruct o, reply; reflexivity. Qed.



Lemma List_filter_all {A} (p : A → bool) (l : list A) :
  Forall (λ x, p x = true) l → List.filter p l = l.
Proof.
  induction 1 as [|x l Hx _ IH]; simpl; [reflexivity|].
  rewrite Hx, IH. reflexivity.
Qed.

Lemma List_filter_idem {A} (p : A → bool) (l : list A) :
  List.filter p (List.filter p l) = List.filter p l.
Proof. apply List_filter_all, List_filter_Forall. Qed.

Lemma later_step_totalCount w w' :
  consistent w → later_step w w' →
  totalCount (store w) = 0 → totalCount (store w') = 0.
Proof.
  intros Hc Hstep H0.
  destruct Hstep as [i f reply w Hi | link w | params w | w | w];
    try (cbn; assumption); try reflexivity.
  pose proof (flights_genuine w Hc) as Hg. rewrite Forall_forall in Hg.
  destruct (Hg f (list_elem_of_lookup_2 _ _ _ Hi)) as [s0 Hk].
  unfold settle. cbn. rewrite Hk, resume_totalCount. exact H0.
Qed.

End LinkStoreMore.

(** X1.  No operation of the store ever writes [totalCount]: in every
    world that can be reached, whatever was fetched, created or deleted,
    it is still 0. *)
Theorem totalCount_is_never_updated (w : Links.World) :
  Links.reachable w → Links.totalCount (Links.store w) = 0.
Proof.
  induction 1 as [|o w Hw IH|w w' Hw IH Hstep].
  - reflexivity.
  - rewrite start_unfold. cbn. exact IH.
  - eapply later_step_totalCount; [|exact Hstep|exact IH].
    apply reachable_consistent, Hw.
Qed.

(** X1 (witness).  After a list of two links has been fetched the count is
    still 0. *)
Lemma totalCount_is_never_updated_witness :
  let e n := Links.mkLinkEntry n "c" "https://example.org" None true None
               Links.safe None None false None 0 "t" "t" None
               (Links.mkUser 1 "u" "U" None false) 1 in
  let k := Links.mkInFlight 0 (Links.GetUserLinks None)
             (Links.resume (Links.perform (Links.GetUserLinks None) Links.initial).1) in
  let w := Links.settle 0 k (inr (Links.mkResponse [e 1; e 2]))
             (Links.start (Links.GetUserLinks None) Links.boot) in
  length (Links.links (Links.store w)) = 2%nat ∧
  Links.totalCount (Links.store w) = 0.
Proof.
  intros e k w. split; [reflexivity|].
  apply (totalCount_is_never_updated w).
  eapply Links.reachable_later.
  - apply Links.reachable_start, Links.reachable_boot.
  - apply Links.step_settle. reflexivity.
Defined.

(** X2.  The five look-up operations ([getLinkStats], [accessLink],
    [getRedirectUrl], [searchAllLinks], [viewLinkByShortCode]) cache
    nothing: when their call succeeds they hand the response data to the
    caller ([getRedirectUrl] its [url] only) and leave [links],
    [currentLink], [totalCount] and [pagination] as they were, with
    [isLoading] false and [error] null. *)
Theorem lookups_cache_nothing (s : Links.LinkState) :
  let idle := Links.assign s (Links.with_isLoading false
                                (Links.with_error None Links.nothing)) in
  (∀ id r, Links.run (Links.GetLinkStats id) (inr r) s
           = (inr (Links.data r), idle)) ∧
  (∀ code r, Links.run (Links.AccessLink code) (inr r) s
             = (inr (Links.data r), idle)) ∧
  (∀ code r, Links.run (Links.GetRedirectUrl code) (inr r) s
             = (inr (Links.url (Links.data r)), idle)) ∧
  (∀ params r, Links.run (Links.SearchAllLinks params) (inr r) s
               = (inr (Links.data r), idle)) ∧
  (∀ code r, Links.run (Links.ViewLinkByShortCode code) (inr r) s
             = (inr (Links.data r), idle)) ∧
  Links.links idle = Links.links s ∧
  Links.currentLink idle = Links.currentLink s ∧
  Links.totalCount idle = Links.totalCount s ∧
  Links.pagination idle = Links.pagination s.
Proof. repeat split. Qed.

(** X3.  A successful [getUserLinks] replaces the list by the response and
    the pagination by the query it sent: the [params] of the call when
    given (not merged: keys the call omits are gone), otherwise the
    pagination the store held when the call was made, whatever the store
    holds when the call settles. *)
Theorem getUserLinks_replaces_list_and_pagination
    (params : option Links.PaginationParams)
    (r : Links.AxiosResponse (list Links.LinkEntry)) (s s1 : Links.LinkState) :
  let s' := (Links.resume (Links.perform (Links.GetUserLinks params) s).1
                          (inr r) s1).2 in
  Links.links s' = Links.data r ∧
  Links.pagination s' =
    match params with
    | Some p => p
    | None => Links.pagination s
    end ∧
  Links.currentLink s' = Links.currentLink s1 ∧
  Links.isLoading s' = false.
Proof. destruct params; repeat split. Qed.

(** X4.  After a successful [deleteLink(id)] the cache holds no record
    with that id: none is left in [links], and [currentLink] is null when
    it had that id and untouched otherwise.  Deleting the same id again
    changes neither. *)
Theorem deleteLink_leaves_no_trace (id : Z) (s : Links.LinkState) :
  let s' := (Links.run (Links.DeleteLink id) (inr (Links.mkResponse tt)) s).2 in
  let s'' := (Links.run (Links.DeleteLink id) (inr (Links.mkResponse tt)) s').2 in
  Forall (λ link, Links.id link ≠ id) (Links.links s') ∧
  Links.currentLink s' =
    match Links.currentLink s with
    | Some link => if decide (Links.id link = id) then None else Some link
    | None => None
    end ∧
  Links.links s'' = Links.links s' ∧
  Links.currentLink s'' = Links.currentLink s'.
Proof.
  cbn. unfold Links.currentLink_has_id. cbn. split; [|split; [|split]].
  - eapply Forall_impl; [apply List_filter_Forall|].
    intros link Hp. simpl in Hp. apply negb_true_iff in Hp.
    apply bool_decide_eq_false in Hp. exact Hp.
  - destruct (Links.currentLink s) as [link|]; [|reflexivity].
    rewrite bool_decide_decide. destruct (decide _); reflexivity.
  - apply List_filter_idem.
  - destruct (Links.currentLink s) as [link|]; cbn; [|reflexivity].
    rewrite bool_decide_decide. destruct (decide _) as [He|Hne]; cbn.
    + reflexivity.
    + rewrite bool_decide_decide. destruct (decide _); [contradiction|].
      reflexivity.
Qed.

(** X5.  [transferOwnership] patches the cache as [updateLink] does, by
    id, in [links] and in [currentLink].  [disableLinkByShortCode] patches
    [links] by short code and never touches [currentLink], also when the
    current link is the one that was disabled. *)
Theorem ownership_and_disable_patches (updatedLink : Links.LinkEntry)
    (s : Links.LinkState) :
  (∀ id newOwnerId data,
     (Links.run (Links.TransferOwnership id newOwnerId)
                (inr (Links.mkResponse updatedLink)) s).2
     = (Links.run (Links.UpdateLink id data)
                  (inr (Links.mkResponse updatedLink)) s).2) ∧
  (∀ code,
     let s' := (Links.run (Links.DisableLinkByShortCode code)
                          (inr (Links.mkResponse updatedLink)) s).2 in
     (∀ i, Links.links s' !! i =
           (λ link, if decide (Links.shortCode link = code)
                    then updatedLink else link) <$> Links.links s !! i) ∧
     Links.currentLink s' = Links.currentLink s).
Proof.
  split; [reflexivity|].
  intros code. cbn. split; [|reflexivity].
  intros i. rewrite lookup_List_map.
  destruct (Links.links s !! i) as [link|]; simpl; [|reflexivity].
  f_equal. rewrite bool_decide_decide. destruct (decide _); reflexivity.
Qed.

(** X6.  Creating a link and then deleting the id the server gave it
    restores the list, provided no cached link already had that id. *)
Theorem create_then_delete_restores_list
    (data : Links.CreateLinkDto) (newLink : Links.LinkEntry)
    (s : Links.LinkState) :
  Forall (λ link, Links.id link ≠ Links.id newLink) (Links.links s) →
  let s1 := (Links.run (Links.CreateLink data)
                       (inr (Links.mkResponse newLink)) s).2 in
  let s2 := (Links.run (Links.DeleteLink (Links.id newLink))
                       (inr (Links.mkResponse tt)) s1).2 in
  Links.links s2 = Links.links s.
Proof.
  intros Hfresh. cbn. rewrite bool_decide_true by reflexivity. cbn.
  apply List_filter_all. eapply Forall_impl; [exact Hfresh|].
  intros link Hne. simpl. rewrite bool_decide_false by exact Hne. reflexivity.
Qed.

(** X6 (witness).  Link 9 is created beside link 1 and deleted again. *)
Lemma create_then_delete_restores_list_witness :
  let e n := Links.mkLinkEntry n "c" "https://example.org" None true None
               Links.safe None None false None 0 "t" "t" None
               (Links.mkUser 1 "u" "U" None false) 1 in
  let d := Links.mkCreateLinkDto "https://example.org" None None None None None in
  let s := Links.mkLinkState [e 1] None false None 0 ∅ in
  Links.links
    (Links.run (Links.DeleteLink 9) (inr (Links.mkResponse tt))
       (Links.run (Links.CreateLink d) (inr (Links.mkResponse (e 9))) s).2).2
  = [e 1].
Proof.
  intros e d s.
  apply (create_then_delete_restores_list d (e 9) s).
  repeat constructor. simpl. lia.
Defined.

(** X7.  [reset] puts the initial values back whatever the store held,
    but cancels nothing: a creation that was in flight when [reset] ran
    still adds its record when its call resolves. *)
Theorem reset_restores_but_does_not_cancel
    (s s1 : Links.LinkState) (data : Links.CreateLinkDto)
    (newLink : Links.LinkEntry) :
  Links.reset s1 = Links.initial ∧
  Links.links
    (Links.resume (Links.perform (Links.CreateLink data) s).1
                  (inr (Links.mkResponse newLink)) (Links.reset s1)).2
  = [newLink].
Proof. split; reflexivity. Qed.



(* ===================================================================== *)
(** * Further properties of the toast store *)
(* ===================================================================== *)

Section ToastMore.

Import Toast.

Lemma in_step_step w w' : tidy w → in_step w → step w w' → in_step w'.
Proof.
  intros Ht Hw Hstep. destruct Hstep as [m sev d pos w | w | id w Hid].
  - rewrite showToast_unfold. unfold in_step. cbn.
    exists (next_timer w). split; [reflexivity|].
    rewrite (tidy_clear_existing w Ht). apply insert_empty.
  - unfold in_step, hideToast, set. cbn. split; [reflexivity|].
    apply tidy_clear_existing, Ht.
  - unfold in_step, expire, set. cbn. split; [reflexivity|].
    unfold in_step in Hw. destruct (open (state w)).
    + destruct Hw as (id' & _ & Htimers). rewrite Htimers in Hid |- *.
      destruct (decide (id' = id)) as [->|Hne].
      * apply delete_singleton_eq.
      * rewrite lookup_singleton_ne in Hid by exact Hne.
        destruct Hid as [? Hid]. discriminate.
    + destruct Hw as [_ Htimers]. rewrite Htimers in Hid.
      rewrite lookup_empty in Hid. destruct Hid as [? Hid]. discriminate.
Qed.

Lemma reachable_in_step w : reachable w → in_step w.
Proof.
  induction 1 as [|w w' Hw IH Hstep].
  - split; reflexivity.
  - eapply in_step_step; [apply reachable_tidy, Hw | exact IH | exact Hstep].
Qed.

End ToastMore.

(** X9.  A toast is on display exactly while its auto-dismiss is pending:
    in every reachable world, if [open] is true then the one pending timer
    is the one [timeoutId] names and its delay is the [duration] on
    display, and if [open] is false then no timer is pending and
    [timeoutId] is null. *)
Theorem open_toast_has_its_timer (w : Toast.World) :
  Toast.reachable w →
  if Toast.open (Toast.state w)
  then ∃ id, Toast.timeoutId (Toast.state w) = Some id ∧
             Toast.timers w = {[ id := Toast.duration (Toast.state w) ]}
  else Toast.timeoutId (Toast.state w) = None ∧ Toast.timers w = ∅.
Proof.
  intros Hw. apply reachable_in_step in Hw. unfold Toast.in_step in Hw.
  destruct (Toast.open (Toast.state w)); exact Hw.
Qed.

(** X9 (witness).  An error toast shown for three seconds. *)
Lemma open_toast_has_its_timer_witness :
  let w := Toast.showError "Failed to delete link" (Some 3000) Toast.boot in
  ∃ id, Toast.timeoutId (Toast.state w) = Some id ∧
        Toast.timers w = {[ id := 3000 ]}.
Proof.
  intros w.
  apply (open_toast_has_its_timer w).
  eapply Toast.reachable_step; [apply Toast.reachable_boot|].
  apply Toast.step_showToast.
Defined.

(** X10.  When the pending timer of a reachable world expires the toast
    closes and keeps its message, severity, duration and position, and no
    timer is left; after [hideToast] no timer is left that could expire
    later. *)
Theorem expiry_closes_and_nothing_fires_twice (w : Toast.World) (id : Toast.TimerId) :
  Toast.reachable w →
  (∀ id', Toast.timers (Toast.hideToast w) !! id' = None) ∧
  (is_Some (Toast.timers w !! id) →
   let w' := Toast.expire id w in
   Toast.open (Toast.state w') = false ∧
   Toast.timeoutId (Toast.state w') = None ∧
   Toast.message (Toast.state w') = Toast.message (Toast.state w) ∧
   Toast.severity (Toast.state w') = Toast.severity (Toast.state w) ∧
   Toast.duration (Toast.state w') = Toast.duration (Toast.state w) ∧
   Toast.position (Toast.state w') = Toast.position (Toast.state w) ∧
   Toast.timers w' = ∅ ∧
   Toast.open (Toast.state w) = true ∧
   Toast.timeoutId (Toast.state w) = Some id).
Proof.
  intros Hw. split.
  - intros id'. unfold Toast.hideToast, Toast.set. cbn.
    rewrite (tidy_clear_existing w (reachable_tidy w Hw)). apply lookup_empty.
  - intros Hid.
    assert (Toast.in_step (Toast.expire id w)) as Hafter.
    { eapply in_step_step; [apply reachable_tidy, Hw
                           | apply reachable_in_step, Hw
                           | apply Toast.step_expire, Hid]. }
    pose proof (reachable_in_step w Hw) as Hbefore.
    unfold Toast.in_step in Hafter, Hbefore. cbn in Hafter.
    destruct Hafter as [_ Hnone].
    repeat split; try exact Hnone.
    + destruct (Toast.open (Toast.state w)); [reflexivity|].
      destruct Hbefore as [_ Hempty]. rewrite Hempty, lookup_empty in Hid.
      destruct Hid as [? Hid]. discriminate.
    + apply (reachable_tidy w Hw). exact Hid.
Qed.

(** X10 (witness).  The timer of the first toast expires. *)
Lemma expiry_closes_and_nothing_fires_twice_witness :
  let w := Toast.showToast "Link created" (Some Toast.success) None None Toast.boot in
  Toast.timers (Toast.expire 1%positive w) = ∅ ∧
  Toast.message (Toast.state (Toast.expire 1%positive w)) = "Link created".
Proof.
  intros w.
  assert (Toast.reachable w) as Hw.
  { eapply Toast.reachable_step; [apply Toast.reachable_boot|].
    apply Toast.step_showToast. }
  destruct (proj2 (expiry_closes_and_nothing_fires_twice w 1%positive Hw))
    as (_ & _ & Hm & _ & _ & _ & Ht & _).
  - exists 5000. reflexivity.
  - split; [exact Ht | exact Hm].
Defined.

(* ===================================================================== *)
(** * Further properties of the QR component *)
(* ===================================================================== *)

(** A log in which an action does not occur, entry by entry. *)
Ltac not_logged H :=
  repeat (apply elem_of_cons in H as [H|H]; [discriminate|]);
  apply elem_of_nil in H; contradiction.

Section QRMore.

Import QRCodeGenerator.





End QRMore.



(** X13.  [handleCopy] reports what happened, when it reports: the toast
    [qr.copy.success] appears exactly when the image was written to the
    clipboard, [qr.copyUrl.success] exactly when [toBlob] threw and the
    URL was written instead, and [qr.copy.error] exactly when [toBlob]
    threw and writing the URL failed too. *)
Theorem handleCopy_toasts (b : QRCodeGenerator.Browser) (fullUrl : string) :
  let log := QRCodeGenerator.handleCopy b fullUrl in
  (QRCodeGenerator.ShowSuccess "qr.copy.success" ∈ log ↔
     QRCodeGenerator.canvas_mounted b = true ∧
     QRCodeGenerator.toBlob b = QRCodeGenerator.toBlob_calls_back true ∧
     QRCodeGenerator.clipboard_write b = true) ∧
  (QRCodeGenerator.ShowSuccess "qr.copyUrl.success" ∈ log ↔
     QRCodeGenerator.canvas_mounted b = true ∧
     QRCodeGenerator.toBlob b = QRCodeGenerator.toBlob_throws ∧
     QRCodeGenerator.clipboard_writeText b = true) ∧
  (QRCodeGenerator.ShowError "qr.copy.error" ∈ log ↔
     QRCodeGenerator.canvas_mounted b = true ∧
     QRCodeGenerator.toBlob b = QRCodeGenerator.toBlob_throws ∧
     QRCodeGenerator.clipboard_writeText b = false).
Proof.
  destruct b as [mounted blob write writeText].
  unfold QRCodeGenerator.handleCopy, QRCodeGenerator.call_toBlob,
    QRCodeGenerator.blob_callback, QRCodeGenerator.write_image,
    QRCodeGenerator.write_text.
  destruct mounted, blob as [|[|]], write, writeText; cbn;
    (split; [|split]);
    (split;
     [ intros Hin; first [ not_logged Hin | repeat split; reflexivity ]
     | intros (Ha & Hb & Hc);
       first [ discriminate | apply list_elem_of_In; simpl; tauto ] ]).
Qed.

(** X13 (witness).  A tainted canvas and a working clipboard: the URL is
    copied and reported. *)
Lemma handleCopy_toasts_witness :
  QRCodeGenerator.ShowSuccess "qr.copyUrl.success"
    ∈ QRCodeGenerator.handleCopy
        (QRCodeGenerator.mkBrowser true QRCodeGenerator.toBlob_throws true true)
        "https://host/s/abc".
Proof.
  apply (proj2 (proj1 (proj2 (handleCopy_toasts
           (QRCodeGenerator.mkBrowser true QRCodeGenerator.toBlob_throws true true)
           "https://host/s/abc")))).
  repeat split.
Defined.

(* ===================================================================== *)
(** * Further properties of the form schemas and of the form controllers *)
(* ===================================================================== *)

Section SchemaMore.

Import Zod.

Variable parses_as_url : string → bool.
Variable dayjs_parse : Value → option Z.

Lemma parse_valid_iff_no_issue t path v :
  (parse parses_as_url t path v).1 = valid ↔
  (parse parses_as_url t path v).2 = [].
Proof.
  induction t as [checks| | |inner IH]; destruct v; cbn;
    try (split; [discriminate | discriminate]);
    try (split; reflexivity); try exact IH.
  destruct (flat_map (run_check parses_as_url path s) checks); cbn;
    split; (reflexivity || discriminate).
Qed.

Lemma parse_shape_valid_iff_no_issue sh (o : Object) :
  (parse_shape parses_as_url sh o).1 = valid ↔
  (parse_shape parses_as_url sh o).2 = [].
Proof.
  induction sh as [|[key t] rest IH]; [split; reflexivity|].
  rewrite parse_shape_cons, merge_valid, IH, parse_valid_iff_no_issue.
  simpl. destruct (parse parses_as_url t [key] (prop o key)) as [st issues].
  destruct (parse_shape parses_as_url rest o) as [st' issues']. cbn.
  split.
  - intros [-> ->]. reflexivity.
  - intros H. apply app_eq_nil in H. exact H.
Qed.

Lemma parse_has_no_custom_issue t path v p m :
  custom p m ∉ (parse parses_as_url t path v).2.
Proof.
  induction t as [checks| | |inner IH]; destruct v; cbn;
    try (intros H; not_logged H); try exact IH.
  intros H. apply list_elem_of_In, in_flat_map in H as (c & _ & Hc).
  destruct c; unfold run_check in Hc;
    match type of Hc with
    | context [if ?b then _ else _] => destruct b
    end; simpl in Hc; intuition discriminate.
Qed.

Lemma parse_shape_has_no_custom_issue sh (o : Object) p m :
  custom p m ∉ (parse_shape parses_as_url sh o).2.
Proof.
  induction sh as [|[key t] rest IH]; cbn; [apply not_elem_of_nil|].
  pose proof (parse_has_no_custom_issue t [key] (prop o key) p m) as Ht.
  destruct (parse parses_as_url t [key] (prop o key)) as [st issues].
  destruct (parse_shape parses_as_url rest o) as [st' issues']. cbn in *.
  intros H. apply elem_of_app in H as [H|H]; [exact (Ht H) | exact (IH H)].
Qed.

Lemma merge_not_aborted (a b : Status) :
  merge a b ≠ aborted ↔ a ≠ aborted ∧ b ≠ aborted.
Proof. destruct a, b; simpl; split; intros; intuition congruence. Qed.

Lemma parse_url_field_not_aborted path v :
  (parse parses_as_url
     (url "Please enter a valid URL" (min 1 "URL is required" z_string))
     path v).1 ≠ aborted
  ↔ ∃ s, v = VString s.
Proof.
  destruct v; cbn; try (split; [congruence | intros [s' H]; discriminate]).
  split; [eauto|]. intros _.
  match goal with
  | |- match ?issues with [] => _ | _ :: _ => _ end ≠ _ => destruct issues
  end; discriminate.
Qed.

Lemma parse_optional_not_aborted t path v :
  t = z_string ∨ t = z_boolean ∨ t = z_any →
  (parse parses_as_url (optional t) path v).1 ≠ aborted ↔
  (parse parses_as_url (optional t) path v).1 = valid.
Proof.
  intros [->|[->| ->]]; destruct v; cbn; split; congruence.
Qed.

End SchemaMore.

(** X14.  For every schema and every input object, the parse succeeds
    exactly when it reports no issue. *)
Theorem accepted_iff_no_issue
    (parses_as_url : string → bool) (schema : Zod.Refined) (o : Zod.Object) :
  Zod.accepts parses_as_url schema o = true ↔
  (Zod.parse_refined parses_as_url schema o).2 = [].
Proof.
  unfold Zod.accepts, Zod.parse_refined.
  pose proof (parse_shape_valid_iff_no_issue parses_as_url (Zod.shape schema) o)
    as Hshape.
  destruct (Zod.parse_shape parses_as_url (Zod.shape schema) o) as [st issues].
  cbn in Hshape.
  destruct st, (Zod.check schema (Zod.strip (Zod.shape schema) o)); cbn;
    split; intros H; try discriminate; try reflexivity;
    try (apply Hshape; reflexivity);
    try (apply Hshape in H; discriminate);
    try (apply app_eq_nil in H as [_ H]; discriminate).
Qed.

(** X14 (witness).  A creation form that holds only a URL is accepted, so
    its parse reports no issue. *)
Lemma accepted_iff_no_issue_witness :
  let o : Zod.Object := {[ "originalUrl" := Zod.VString "https://example.org/a" ]} in
  (Zod.parse_refined (String.prefix "https://") (Zod.linkSchema (λ _, None)) o).2
  = [].
Proof.
  intros o.
  apply (proj1 (accepted_iff_no_issue (String.prefix "https://")
                  (Zod.linkSchema (λ _, None)) o)).
  reflexivity.
Defined.

Section FormFacts.

Import Zod.

Variable parses_as_url : string → bool.
Variable dayjs_parse : Value → option Z.

Lemma custom_issue_iff (schema : Refined) (o : Object) :
  custom (refine_path schema) (refine_message schema)
    ∈ (parse_refined parses_as_url schema o).2
  ↔ (parse_shape parses_as_url (shape schema) o).1 ≠ aborted ∧
    check schema (strip (shape schema) o) = false.
Proof.
  unfold parse_refined.
  pose proof (parse_shape_has_no_custom_issue parses_as_url (shape schema) o
                (refine_path schema) (refine_message schema)) as Hnone.
  destruct (parse_shape parses_as_url (shape schema) o) as [st issues].
  cbn in Hnone.
  destruct st, (check schema (strip (shape schema) o)); cbn;
    split; try (intros H; exfalso; exact (Hnone H));
    try (intros [H1 H2]; congruence);
    try (intros _; split; [discriminate | reflexivity]);
    try (intros _; apply elem_of_app; right; apply list_elem_of_here).
Qed.

Lemma dates_out_of_order_iff (data : Object) :
  dates_in_order dayjs_parse data = false ↔
    truthy (prop data "startDateTime") = true ∧
    truthy (prop data "endDateTime") = true ∧
    ¬ strictly_before dayjs_parse (prop data "startDateTime")
                                  (prop data "endDateTime").
Proof.
  rewrite <- not_true_iff_false, dates_in_order_iff.
  destruct (truthy (prop data "startDateTime")),
           (truthy (prop data "endDateTime")).
  - split.
    + intros H. repeat split. intros Hb. apply H. intros _ _. exact Hb.
    + intros (_ & _ & H) Hb. apply H, Hb; reflexivity.
  - split; [intros H; exfalso; apply H; intros; discriminate
           | intros (H1 & H2 & _); discriminate].
  - split; [intros H; exfalso; apply H; intros; discriminate
           | intros (H1 & H2 & _); discriminate].
  - split; [intros H; exfalso; apply H; intros; discriminate
           | intros (H1 & H2 & _); discriminate].
Qed.

Lemma truthy_date_default (d : option string) :
  truthy (Forms.date_default dayjs_parse d) = true ↔ ∃ s, d = Some s ∧ s ≠ "".
Proof.
  destruct d as [[|c s]|]; cbn.
  - split; [discriminate | intros (s' & H & Hne)].
    injection H as <-. contradiction.
  - split; [intros _ | reflexivity].
    exists (String c s). split; [reflexivity | discriminate].
  - split; [discriminate | intros (s' & H & _); discriminate].
Qed.

Lemma dayjs_date_default (s : string) :
  s ≠ "" →
  dayjs dayjs_parse (Forms.date_default dayjs_parse (Some s))
  = dayjs_parse (VString s).
Proof. destruct s; [contradiction|reflexivity]. Qed.

End FormFacts.

(** X15.  [linkSchema] reports [End date must be after start date], at
    the path [endDateTime], exactly when every field has an acceptable
    type (the URL field any string, valid or not), both dates are truthy
    and the start is not strictly before the end: it is reported beside a
    URL issue, and withheld when a field has the wrong type. *)
Theorem date_issue_is_reported_iff
    (parses_as_url : string → bool) (dayjs_parse : Zod.Value → option Z)
    (o : Zod.Object) :
  Zod.custom ["endDateTime"] "End date must be after start date"
    ∈ (Zod.parse_refined parses_as_url (Zod.linkSchema dayjs_parse) o).2
  ↔ (∃ s, Zod.prop o "originalUrl" = Zod.VString s) ∧
    Zod.absent_or_string (Zod.prop o "description") ∧
    Zod.absent_or_boolean (Zod.prop o "withLogo") ∧
    Zod.absent_or_string (Zod.prop o "qrSubtitle") ∧
    Zod.truthy (Zod.prop o "startDateTime") = true ∧
    Zod.truthy (Zod.prop o "endDateTime") = true ∧
    ¬ Zod.strictly_before dayjs_parse (Zod.prop o "startDateTime")
                                      (Zod.prop o "endDateTime").
Proof.
  pose proof (custom_issue_iff parses_as_url (Zod.linkSchema dayjs_parse) o) as H.
  cbn [Zod.linkSchema Zod.refine Zod.refine_path Zod.refine_message
       Zod.shape Zod.check Zod.z_object] in H.
  rewrite H. clear H.
  rewrite dates_out_of_order_iff.
  rewrite !prop_strip by (cbn; set_solver).
  unfold Zod.z_object.
  rewrite !parse_shape_cons, !merge_not_aborted.
  rewrite parse_url_field_not_aborted.
  rewrite !parse_optional_not_aborted by auto.
  rewrite !parse_optional_string, parse_optional_boolean, !parse_optional_any.
  cbn [Zod.parse_shape fst].
  assert (Zod.valid ≠ Zod.aborted) by discriminate. tauto.
Qed.

(** X15 (witness).  A creation form with a malformed URL and an end that
    precedes the start: the date issue is reported too. *)
Lemma date_issue_is_reported_iff_witness :
  let o : Zod.Object :=
    {[ "originalUrl" := Zod.VString "htp://invalid-url";
       "startDateTime" := Zod.VDayjs (Some 1700003600000);
       "endDateTime" := Zod.VDayjs (Some 1700000000000) ]} in
  Zod.custom ["endDateTime"] "End date must be after start date"
    ∈ (Zod.parse_refined (String.prefix "https://") (Zod.linkSchema (λ _, None)) o).2.
Proof.
  intros o.
  apply (proj2 (date_issue_is_reported_iff (String.prefix "https://") (λ _, None) o)).
  split; [eexists; reflexivity|].
  split; [left; reflexivity|]. split; [left; reflexivity|].
  split; [left; reflexivity|]. split; [reflexivity|]. split; [reflexivity|].
  intros (x & y & Hx & Hy & Hlt).
  change (Some 1700003600000 = Some x) in Hx.
  change (Some 1700000000000 = Some y) in Hy.
  injection Hx as <-. injection Hy as <-. lia.
Defined.

(** X16.  The default values the edit dialog builds from a link always
    have the types [editLinkSchema] asks for, so the unedited form is
    accepted exactly when the link's URL is a non-empty string that
    parses and, if the link has both a start and an end date (non-empty
    strings), the start parses to an instant strictly before the end's. *)
Theorem edit_defaults_accepted_iff
    (parses_as_url : string → bool) (dayjs_parse : Zod.Value → option Z)
    (link : Links.LinkEntry) :
  Zod.accepts parses_as_url (Zod.editLinkSchema dayjs_parse)
              (Forms.edit_defaults dayjs_parse link) = true
  ↔ Links.originalUrl link ≠ "" ∧
    parses_as_url (Links.originalUrl link) = true ∧
    (∀ a b, Links.startDateTime link = Some a → a ≠ "" →
            Links.endDateTime link = Some b → b ≠ "" →
            ∃ x y, dayjs_parse (Zod.VString a) = Some x ∧
                   dayjs_parse (Zod.VString b) = Some y ∧ x < y).
Proof.
  rewrite editLinkSchema_accepts_iff.
  change (Zod.prop (Forms.edit_defaults dayjs_parse link) "originalUrl")
    with (Zod.VString (Links.originalUrl link)).
  change (Zod.prop (Forms.edit_defaults dayjs_parse link) "description")
    with (Zod.VString (Js.or_string (Links.description link) "")).
  change (Zod.prop (Forms.edit_defaults dayjs_parse link) "enabled")
    with (Zod.VBoolean (Links.enabled link)).
  change (Zod.prop (Forms.edit_defaults dayjs_parse link) "withLogo")
    with (Zod.VBoolean (Links.withLogo link)).
  change (Zod.prop (Forms.edit_defaults dayjs_parse link) "qrSubtitle")
    with (Zod.VString (Js.or_string (Links.qrSubtitle link) "")).
  change (Zod.prop (Forms.edit_defaults dayjs_parse link) "startDateTime")
    with (Forms.date_default dayjs_parse (Links.startDateTime link)).
  change (Zod.prop (Forms.edit_defaults dayjs_parse link) "endDateTime")
    with (Forms.date_default dayjs_parse (Links.endDateTime link)).
  rewrite !truthy_date_default. unfold Zod.strictly_before.
  split.
  - intros ((u & Hu & Hne & Hp) & _ & _ & _ & _ & Hdates).
    injection Hu as <-. split; [exact Hne|]. split; [exact Hp|].
    intros a b Ha Hane Hb Hbne.
    destruct Hdates as (x & y & Hx & Hy & Hlt); [eauto | eauto |].
    rewrite Ha, dayjs_date_default in Hx by exact Hane.
    rewrite Hb, dayjs_date_default in Hy by exact Hbne.
    eauto.
  - intros (Hne & Hp & Hdates).
    split; [exists (Links.originalUrl link); auto|].
    split; [right; eauto|]. split; [eexists; reflexivity|].
    split; [eexists; reflexivity|]. split; [right; eauto|].
    intros (a & Ha & Hane) (b & Hb & Hbne).
    destruct (Hdates a b Ha Hane Hb Hbne) as (x & y & Hx & Hy & Hlt).
    exists x, y. rewrite Ha, Hb, !dayjs_date_default by assumption. auto.
Qed.

(** X16 (witness).  A link without dates whose URL parses: its unedited
    edit form is accepted. *)
Lemma edit_defaults_accepted_iff_witness :
  let link := Links.mkLinkEntry 4 "abc" "https://example.org/a" None true None
                Links.safe None None false None 0 "t" "t" None
                (Links.mkUser 1 "u" "U" None false) 1 in
  Zod.accepts (String.prefix "https://") (Zod.editLinkSchema (λ _, None))
              (Forms.edit_defaults (λ _, None) link) = true.
Proof.
  intros link.
  apply (proj2 (edit_defaults_accepted_iff (String.prefix "https://")
                  (λ _, None) link)).
  split; [discriminate|]. split; [reflexivity|].
  intros a b Ha. discriminate.
Defined.

(** X17.  The creation form as it opens is rejected, with the issue [URL
    is required] on the URL field (followed by [Please enter a valid URL]
    when the URL parser rejects the empty string); once only the URL field
    is filled in, it is accepted exactly when that URL is non-empty and
    parses. *)
Theorem create_defaults_need_a_url
    (parses_as_url : string → bool) (dayjs_parse : Zod.Value → option Z)
    (typed : string) :
  (Zod.parse_refined parses_as_url (Zod.linkSchema dayjs_parse)
                     Forms.create_defaults).2
  = Zod.too_small ["originalUrl"] 1 "URL is required"
      :: (if parses_as_url "" then []
          else [Zod.invalid_string ["originalUrl"] "Please enter a valid URL"]) ∧
  (Zod.accepts parses_as_url (Zod.linkSchema dayjs_parse)
               (<["originalUrl" := Zod.VString typed]> Forms.create_defaults)
   = true ↔ typed ≠ "" ∧ parses_as_url typed = true).
Proof.
  split.
  - destruct (parses_as_url "") eqn:E; vm_compute; vm_compute in E;
      rewrite E; reflexivity.
  - rewrite linkSchema_accepts_iff.
    set (o := <["originalUrl" := Zod.VString typed]> Forms.create_defaults).
    change (Zod.prop o "originalUrl") with (Zod.VString typed).
    change (Zod.prop o "description") with (Zod.VString "").
    change (Zod.prop o "withLogo") with (Zod.VBoolean false).
    change (Zod.prop o "qrSubtitle") with (Zod.VString "").
    change (Zod.prop o "startDateTime") with Zod.VNull.
    change (Zod.prop o "endDateTime") with Zod.VNull.
    split.
    + intros ((u & Hu & Hne & Hp) & _). injection Hu as <-. auto.
    + intros [Hne Hp]. split; [exists typed; auto|].
      split; [right; eauto|]. split; [right; eauto|]. split; [right; eauto|].
      intros Hs. discriminate.
Qed.

(** X17 (witness).  The URL field filled with an https address. *)
Lemma create_defaults_need_a_url_witness :
  Zod.accepts (String.prefix "https://") (Zod.linkSchema (λ _, None))
    (<["originalUrl" := Zod.VString "https://example.org/a"]> Forms.create_defaults)
  = true.
Proof.
  apply (proj2 (proj2 (create_defaults_need_a_url (String.prefix "https://")
                         (λ _, None) "https://example.org/a"))).
  split; [discriminate | reflexivity].
Defined.

(** X18.  The URL preview of the creation form marks the typed URL valid
    exactly when the schema accepts it in the URL field; the preview text
    is then the base URL followed by the fixed path [/s/abc123], and is
    empty otherwise. *)
Theorem url_preview_agrees_with_schema
    (parses_as_url : string → bool) (env : option string)
    (origin watchedUrl : string) :
  ((Forms.url_preview parses_as_url env origin watchedUrl).1 = true ↔
     Zod.url_field_ok parses_as_url (Zod.VString watchedUrl)) ∧
  (Forms.url_preview parses_as_url env origin watchedUrl).2
  = (if (Forms.url_preview parses_as_url env origin watchedUrl).1
     then Forms.baseUrl env origin ++ "/s/abc123" else "").
Proof.
  unfold Forms.url_preview, Zod.url_field_ok.
  destruct watchedUrl as [|c u]; cbn.
  - split; [|reflexivity].
    split; [discriminate | intros (s & H & Hne & _)].
    injection H as <-. contradiction.
  - destruct (parses_as_url (String c u)) eqn:E; cbn; (split; [|reflexivity]).
    + split; [intros _ | reflexivity].
      exists (String c u). split; [reflexivity|]. split; [discriminate|exact E].
    + split; [discriminate | intros (s & H & _ & Hp)].
      injection H as <-. congruence.
Qed.

Section SubmitFacts.

Variable dayjs_parse : Zod.Value → option Z.
Variable format_iso : Z → string.
Variable formatMessage : string → option string → string.

Lemma date_or_undefined_None (v : Zod.Value) :
  Forms.date_or_undefined dayjs_parse format_iso v = None ↔
  Zod.truthy v = true ∧ Zod.dayjs dayjs_parse v = None.
Proof.
  unfold Forms.date_or_undefined, Forms.toISOString.
  destruct (Zod.truthy v), (Zod.dayjs dayjs_parse v); cbn;
    split; try discriminate; try (intros [? ?]; discriminate); auto.
Qed.

Lemma createData_None (data : Forms.LinkFormData) :
  Forms.createData dayjs_parse format_iso data = None ↔
  (Zod.truthy (Forms.startDateTime data) = true ∧
   Zod.dayjs dayjs_parse (Forms.startDateTime data) = None) ∨
  (Zod.truthy (Forms.endDateTime data) = true ∧
   Zod.dayjs dayjs_parse (Forms.endDateTime data) = None).
Proof.
  unfold Forms.createData.
  rewrite <- !date_or_undefined_None.
  destruct (Forms.date_or_undefined dayjs_parse format_iso (Forms.startDateTime data)),
           (Forms.date_or_undefined dayjs_parse format_iso (Forms.endDateTime data));
    cbn; split; intros H; try discriminate; auto;
    destruct H as [H|H]; discriminate.
Qed.

End SubmitFacts.

(** X19.  Submitting the creation form.  No request is made exactly when
    a date that is set is invalid: the store then only loses its error and
    an error toast with the generic message is shown.  Otherwise the call
    is made and, when it resolves, the new record heads the list, the
    success toast names its short code, the form is reset and [onSuccess]
    receives the short code; when it is rejected the list is as before,
    the store keeps the server's message or [Failed to create link], the
    error toast shows the server's message or the generic one, and the
    form is left as it was.  The toast is open in every case. *)
Theorem create_onSubmit_outcomes
    (dayjs_parse : Zod.Value → option Z) (format_iso : Z → string)
    (formatMessage : string → option string → string)
    (data : Forms.LinkFormData) (reply : Links.HttpResult Links.LinkEntry)
    (p : Forms.Page) :
  let p' := Forms.create_onSubmit dayjs_parse format_iso formatMessage data reply p in
  let shown := Toast.state (Forms.toast p') in
  Toast.open shown = true ∧
  (Forms.createData dayjs_parse format_iso data = None ↔
     (Zod.truthy (Forms.startDateTime data) = true ∧
      Zod.dayjs dayjs_parse (Forms.startDateTime data) = None) ∨
     (Zod.truthy (Forms.endDateTime data) = true ∧
      Zod.dayjs dayjs_parse (Forms.endDateTime data) = None)) ∧
  match Forms.createData dayjs_parse format_iso data, reply with
  | None, _ =>
      Forms.store p' = Links.clearError (Forms.store p) ∧
      Toast.severity shown = Toast.error ∧
      Toast.message shown = formatMessage "link.create.error" None ∧
      Forms.form_reset p' = Forms.form_reset p ∧
      Forms.onSuccess_called p' = Forms.onSuccess_called p
  | Some _, inr r =>
      Links.links (Forms.store p') = Links.data r :: Links.links (Forms.store p) ∧
      Links.error (Forms.store p') = None ∧
      Links.isLoading (Forms.store p') = false ∧
      Toast.severity shown = Toast.success ∧
      Toast.message shown
        = formatMessage "link.create.success"
                        (Some (Links.shortCode (Links.data r))) ∧
      Forms.form_reset p' = true ∧
      Forms.onSuccess_called p' = Some (Some (Links.shortCode (Links.data r)))
  | Some _, inl err =>
      Links.links (Forms.store p') = Links.links (Forms.store p) ∧
      Links.error (Forms.store p')
        = Some (Js.or_string (Links.response_data_message err)
                             "Failed to create link") ∧
      Links.isLoading (Forms.store p') = false ∧
      Toast.severity shown = Toast.error ∧
      Toast.message shown
        = Js.or_string (Links.response_data_message err)
                       (formatMessage "link.create.error" None) ∧
      Forms.form_reset p' = Forms.form_reset p ∧
      Forms.onSuccess_called p' = Forms.onSuccess_called p
  end.
Proof.
  intros p' shown. subst shown p'. unfold Forms.create_onSubmit.
  split; [|split; [apply createData_None|]].
  - destruct (Forms.createData dayjs_parse format_iso data) as [dto|];
      [destruct reply as [err|r]|]; reflexivity.
  - destruct (Forms.createData dayjs_parse format_iso data) as [dto|];
      [destruct reply as [err|r]|]; repeat split.
Qed.

(** X19 (witness).  A start date that is set but invalid: no request, the
    generic error toast. *)
Lemma create_onSubmit_outcomes_witness :
  let data := Forms.mkLinkFormData "https://example.org/a" None
                (Zod.VDayjs None) Zod.VNull None None in
  Forms.createData (λ _, None) (λ _, "iso") data = None.
Proof.
  intros data.
  apply (proj2 (proj1 (proj2 (create_onSubmit_outcomes (λ _, None) (λ _, "iso")
           (λ id _, id) data (inl (Links.mkAxiosError None))
           (Forms.mkPage Links.initial Toast.boot false false None))))).
  left. split; reflexivity.
Defined.

(** X20.  Submitting the edit dialog of a link.  When the call resolves,
    the returned record replaces every cached entry with the link's id,
    the success toast names the short code of the link that was opened
    for editing, [onSuccess] is called and the dialog closes; when the
    call is rejected, or is not made because a date that is set is
    invalid, the dialog stays open, the list is as before and an error
    toast shows the server's message or the generic one. *)
Theorem edit_onSubmit_outcomes
    (dayjs_parse : Zod.Value → option Z) (format_iso : Z → string)
    (formatMessage : string → option string → string)
    (link : Links.LinkEntry) (data : Forms.EditLinkFormData)
    (reply : Links.HttpResult Links.LinkEntry) (p : Forms.Page) :
  let p' := Forms.edit_onSubmit dayjs_parse format_iso formatMessage link data reply p in
  let shown := Toast.state (Forms.toast p') in
  Toast.open shown = true ∧
  match Forms.updateData dayjs_parse format_iso data, reply with
  | Some _, inr r =>
      (∀ i, Links.links (Forms.store p') !! i =
            (λ l, if decide (Links.id l = Links.id link) then Links.data r else l)
              <$> Links.links (Forms.store p) !! i) ∧
      Links.error (Forms.store p') = None ∧
      Toast.severity shown = Toast.success ∧
      Toast.message shown
        = formatMessage "link.edit.success" (Some (Links.shortCode link)) ∧
      Forms.dialog_closed p' = true ∧
      Forms.onSuccess_called p' = Some None
  | Some _, inl err =>
      Links.links (Forms.store p') = Links.links (Forms.store p) ∧
      Links.error (Forms.store p')
        = Some (Js.or_string (Links.response_data_message err)
                             "Failed to update link") ∧
      Toast.severity shown = Toast.error ∧
      Toast.message shown
        = Js.or_string (Links.response_data_message err)
                       (formatMessage "link.edit.error" None) ∧
      Forms.dialog_closed p' = Forms.dialog_closed p ∧
      Forms.onSuccess_called p' = Forms.onSuccess_called p
  | None, _ =>
      Forms.store p' = Links.clearError (Forms.store p) ∧
      Toast.severity shown = Toast.error ∧
      Toast.message shown = formatMessage "link.edit.error" None ∧
      Forms.dialog_closed p' = Forms.dialog_closed p ∧
      Forms.onSuccess_called p' = Forms.onSuccess_called p
  end.
Proof.
  intros p' shown. subst shown p'. unfold Forms.edit_onSubmit.
  split.
  - destruct (Forms.updateData dayjs_parse format_iso data) as [dto|];
      [destruct reply as [err|r]|]; reflexivity.
  - destruct (Forms.updateData dayjs_parse format_iso data) as [dto|];
      [destruct reply as [err|r]|]; repeat split.
    intros i. cbn. rewrite lookup_List_map.
    destruct (Links.links (Forms.store p) !! i) as [l|]; simpl; [|reflexivity].
    f_equal. rewrite bool_decide_decide. destruct (decide _); reflexivity.
Qed.

(* ===================================================================== *)
(** * Properties of the dashboard page *)
(* ===================================================================== *)

Section DashboardFacts.

Import Dashboard.

Variable dayjs_parse : Zod.Value → option Z.

Lemma bound_before (now : Z) (d : option string) :
  match bound dayjs_parse d with
  | Some t => Zod.isBefore (Some now) t
  | None => false
  end = true ↔ denotes dayjs_parse d (λ t, now < t).
Proof.
  unfold bound, denotes. destruct d as [[|c s]|]; cbn.
  - split; [discriminate | intros (s' & t & H & Hne & _)].
    injection H as <-. contradiction.
  - destruct (dayjs_parse (Zod.VString (String c s))) as [t|] eqn:E; cbn.
    + rewrite Z.ltb_lt. split.
      * intros H. exists (String c s), t. repeat split; [discriminate|exact E|exact H].
      * intros (s' & t' & H & _ & Ht & Hlt). injection H as <-. congruence.
    + split; [discriminate | intros (s' & t' & H & _ & Ht & _)].
      injection H as <-. congruence.
  - split; [discriminate | intros (s' & t & H & _)]. discriminate.
Qed.

Lemma bound_after (now : Z) (d : option string) :
  match bound dayjs_parse d with
  | Some t => isAfter (Some now) t
  | None => false
  end = true ↔ denotes dayjs_parse d (λ t, t < now).
Proof.
  unfold bound, denotes, isAfter. destruct d as [[|c s]|]; cbn.
  - split; [discriminate | intros (s' & t & H & Hne & _)].
    injection H as <-. contradiction.
  - destruct (dayjs_parse (Zod.VString (String c s))) as [t|] eqn:E; cbn.
    + rewrite Z.ltb_lt. split.
      * intros H. exists (String c s), t. repeat split; [discriminate|exact E|exact H].
      * intros (s' & t' & H & _ & Ht & Hlt). injection H as <-. congruence.
    + split; [discriminate | intros (s' & t' & H & _ & Ht & _)].
      injection H as <-. congruence.
  - split; [discriminate | intros (s' & t & H & _)]. discriminate.
Qed.

Lemma includes_empty (s : string) : includes s "" = true.
Proof. destruct s; reflexivity. Qed.

Lemma append_inj_r (p a b : string) : p ++ a = p ++ b → a = b.
Proof.
  induction p as [|c p IH]; cbn; [auto|].
  intros H. injection H as H. apply IH, H.
Qed.

End DashboardFacts.

(** X21.  The status chip of a link.  A disabled link is shown inactive
    (grey) whatever its dates.  An enabled link is shown inactive (amber)
    when its start date denotes an instant after now, also when its end
    has passed as well; expired when it is not so and its end date denotes
    an instant before now; and active otherwise: at the very instant of
    its start or of its end, and whenever a date is empty or invalid, the
    link counts as within its window. *)
Theorem status_chip_cases
    (dayjs_parse : Zod.Value → option Z) (now : Z) (link : Links.LinkEntry) :
  let chip := Dashboard.getStatusChip dayjs_parse now link in
  let early := Dashboard.denotes dayjs_parse (Links.startDateTime link) (λ t, now < t) in
  let late := Dashboard.denotes dayjs_parse (Links.endDateTime link) (λ t, t < now) in
  (chip = Dashboard.mkChip "link.status.inactive" Dashboard.color_default
     ↔ Links.enabled link = false) ∧
  (chip = Dashboard.mkChip "link.status.inactive" Dashboard.color_warning
     ↔ Links.enabled link = true ∧ early) ∧
  (chip = Dashboard.mkChip "link.status.expired" Dashboard.color_error
     ↔ Links.enabled link = true ∧ ¬ early ∧ late) ∧
  (chip = Dashboard.mkChip "link.status.active" Dashboard.color_success
     ↔ Links.enabled link = true ∧ ¬ early ∧ ¬ late).
Proof.
  intros chip early late. subst chip early late.
  unfold Dashboard.getStatusChip.
  pose proof (bound_before dayjs_parse now (Links.startDateTime link)) as Hs.
  pose proof (bound_after dayjs_parse now (Links.endDateTime link)) as He.
  destruct (Links.enabled link); cbn [negb].
  - destruct (match Dashboard.bound dayjs_parse (Links.startDateTime link) with
              | Some t => Zod.isBefore (Some now) t
              | None => false
              end).
    + assert (Dashboard.denotes dayjs_parse (Links.startDateTime link)
                                (λ t, now < t)) as Hearly by (apply Hs; reflexivity).
      repeat split; try discriminate; try tauto;
        intros (_ & Hn & _); contradiction.
    + assert (¬ Dashboard.denotes dayjs_parse (Links.startDateTime link)
                                  (λ t, now < t)) as Hearly
        by (intros H; apply Hs in H; discriminate).
      destruct (match Dashboard.bound dayjs_parse (Links.endDateTime link) with
                | Some t => Dashboard.isAfter (Some now) t
                | None => false
                end).
      * assert (Dashboard.denotes dayjs_parse (Links.endDateTime link)
                                  (λ t, t < now)) as Hlate by (apply He; reflexivity).
        repeat split; try discriminate; try tauto.
      * assert (¬ Dashboard.denotes dayjs_parse (Links.endDateTime link)
                                    (λ t, t < now)) as Hlate
          by (intros H; apply He in H; discriminate).
        repeat split; try discriminate; try tauto.
  - repeat split; try discriminate; try (intros [H _]; discriminate).
Qed.

(** X21 (witness).  An enabled link whose window opens exactly now is
    active. *)
Lemma status_chip_cases_witness :
  let parse v := match v with Zod.VString "2025-01-01" => Some 1000 | _ => None end in
  let link := Links.mkLinkEntry 4 "abc" "https://example.org/a" None true None
                Links.safe (Some "2025-01-01") None false None 0 "t" "t" None
                (Links.mkUser 1 "u" "U" None false) 1 in
  Dashboard.getStatusChip parse 1000 link
  = Dashboard.mkChip "link.status.active" Dashboard.color_success.
Proof.
  intros parse link.
  apply (proj2 (proj2 (proj2 (proj2 (status_chip_cases parse 1000 link))))).
  split; [reflexivity|]. split.
  - intros (s & t & Hs & _ & Ht & Hlt). injection Hs as <-.
    cbn in Ht. injection Ht as <-. lia.
  - intros (s & t & Hs & _). discriminate.
Defined.

(** X22.  The search box filters the cached list in place: the rows shown
    are a sublist of [links], each of which matches the term, and when
    lower-casing maps the empty string to itself an empty search term
    shows every link. *)
Theorem search_filters_in_place
    (toLowerCase : string → string) (searchTerm : string)
    (links : list Links.LinkEntry) :
  Dashboard.filteredLinks toLowerCase searchTerm links `sublist_of` links ∧
  Forall (λ link, Dashboard.matches toLowerCase searchTerm link = true)
         (Dashboard.filteredLinks toLowerCase searchTerm links) ∧
  (toLowerCase "" = "" → Dashboard.filteredLinks toLowerCase "" links = links).
Proof.
  unfold Dashboard.filteredLinks.
  split; [apply List_filter_sublist|]. split; [apply List_filter_Forall|].
  intros Hlower. apply List_filter_all, Forall_forall. intros link _.
  unfold Dashboard.matches. rewrite Hlower, includes_empty. reflexivity.
Qed.

(** X22 (witness).  With an identity lower-casing, an empty search term
    keeps a list of one link. *)
Lemma search_filters_in_place_witness :
  let link := Links.mkLinkEntry 4 "abc" "https://example.org/a" None true None
                Links.safe None None false None 0 "t" "t" None
                (Links.mkUser 1 "u" "U" None false) 1 in
  Dashboard.filteredLinks (λ s, s) "" [link] = [link].
Proof.
  intros link.
  apply (proj2 (proj2 (search_filters_in_place (λ s, s) "" [link]))).
  reflexivity.
Defined.

(** X23.  The full short URL is the base URL (the configured one when it
    is set and not empty, the page's origin otherwise) followed by [/s/]
    and the short code, so that different short codes always give
    different URLs. *)
Theorem short_urls_are_distinct
    (env : option string) (origin a b : string) :
  a ≠ b →
  Dashboard.getFullShortUrl env origin a ≠ Dashboard.getFullShortUrl env origin b.
Proof.
  intros Hne Heq. apply Hne. unfold Dashboard.getFullShortUrl in Heq.
  apply append_inj_r in Heq. apply append_inj_r in Heq. exact Heq.
Qed.

(** X23 (witness).  Two short codes under the page's origin. *)
Lemma short_urls_are_distinct_witness :
  Dashboard.getFullShortUrl None "https://host" "abc"
  ≠ Dashboard.getFullShortUrl None "https://host" "xyz".
Proof.
  apply (short_urls_are_distinct None "https://host" "abc" "xyz").
  discriminate.
Defined.

(** X24.  Confirming a deletion.  With no link awaiting confirmation the
    handler does nothing.  When the call resolves, no cached record has
    the link's id any more, the success toast is shown, the dialog is
    closed and a refresh of the list has been started with the store's
    pagination and is not awaited, so the store is loading.  When the
    call is rejected the list is as before, the dialog stays open, no
    refresh is started, and the error toast shows the page's own message,
    not the server's, which only the store's [error] holds. *)
Theorem delete_confirmation_outcomes
    (formatMessage : string → option string → string)
    (reply : Links.HttpResult unit) (d : Dashboard.State) :
  let d' := Dashboard.handleDeleteConfirm formatMessage reply d in
  let shown := Toast.state (Dashboard.toast d') in
  match Dashboard.deleteConfirmLink d, reply with
  | None, _ => d' = d
  | Some link, inr _ =>
      Forall (λ l, Links.id l ≠ Links.id link) (Links.links (Dashboard.store d')) ∧
      Links.isLoading (Dashboard.store d') = true ∧
      Dashboard.deleteConfirmLink d' = None ∧
      Links.request <$> Dashboard.refresh d'
        = Some (Links.GET_links (Links.pagination (Dashboard.store d))) ∧
      Toast.open shown = true ∧
      Toast.severity shown = Toast.success ∧
      Toast.message shown = formatMessage "link.delete.success" None
  | Some link, inl err =>
      Links.links (Dashboard.store d') = Links.links (Dashboard.store d) ∧
      Links.isLoading (Dashboard.store d') = false ∧
      Links.error (Dashboard.store d')
        = Some (Js.or_string (Links.response_data_message err)
                             "Failed to delete link") ∧
      Dashboard.deleteConfirmLink d' = Some link ∧
      Dashboard.refresh d' = Dashboard.refresh d ∧
      Toast.open shown = true ∧
      Toast.severity shown = Toast.error ∧
      Toast.message shown = formatMessage "link.delete.error" None
  end.
Proof.
  intros d' shown. subst shown d'. unfold Dashboard.handleDeleteConfirm.
  destruct (Dashboard.deleteConfirmLink d) as [link|]; [|reflexivity].
  destruct reply as [err|r]; [repeat split|].
  cbn. split; [|repeat split].
  eapply Forall_impl; [apply List_filter_Forall|].
  intros l Hp. simpl in Hp. apply negb_true_iff in Hp.
  apply bool_decide_eq_false in Hp. exact Hp.
Qed.

(** X25.  Changing the page of the grid.  The handler first merges the
    new page size and offset into the store's pagination, keeping the
    other keys, and starts a list fetch with those two parameters only.
    If the fetch resolves, the pagination becomes exactly the two
    parameters: the sort column and the order are no longer in the store;
    if it is rejected they stay. *)
Theorem page_change_drops_sort_on_success
    (page pageSize : Z) (d : Dashboard.State)
    (r : Links.AxiosResponse (list Links.LinkEntry)) (err : Links.AxiosError) :
  let d' := Dashboard.onPaginationModelChange page pageSize d in
  let before := Links.pagination (Dashboard.store d) in
  let during := Links.pagination (Dashboard.store d') in
  during !! "max" = Some (Links.PNumber pageSize) ∧
  during !! "offset" = Some (Links.PNumber (page * pageSize)) ∧
  during !! "sort" = before !! "sort" ∧
  during !! "order" = before !! "order" ∧
  ∃ k, Dashboard.refresh d' = Some k ∧
       Links.request k = Links.GET_links (Dashboard.page_params page pageSize) ∧
       (let after := Links.pagination (Links.resume k (inr r) (Dashboard.store d')).2 in
        after = Dashboard.page_params page pageSize ∧
        after !! "sort" = None ∧ after !! "order" = None) ∧
       Links.pagination (Links.resume k (inl err) (Dashboard.store d')).2 = during.
Proof.
  intros d' before during. subst during before d'.
  unfold Dashboard.onPaginationModelChange, Dashboard.refresh_list. cbn.
  unfold Links.spread, Dashboard.page_params.
  split; [apply lookup_union_Some_l; reflexivity|].
  split; [apply lookup_union_Some_l; reflexivity|].
  split; [apply lookup_union_r; reflexivity|].
  split; [apply lookup_union_r; reflexivity|].
  eexists. split; [reflexivity|]. split; [reflexivity|].
  split; [|reflexivity]. cbn. repeat split.
Qed.

(* ===================================================================== *)
(** * Properties of the language preference *)
(* ===================================================================== *)

Section I18nFacts.

Import I18n.

Lemma is_locale_elem (s : string) : is_locale s = true ↔ s ∈ locales.
Proof. unfold is_locale. apply bool_decide_eq_true. Qed.

Lemma locale_cases (s : string) : s ∈ locales → s = "en" ∨ s = "th".
Proof.
  unfold locales. intros H.
  apply elem_of_cons in H as [->|H]; [auto|].
  apply elem_of_cons in H as [->|H]; [auto|].
  apply elem_of_nil in H. contradiction.
Qed.

Lemma default_is_locale : getDefaultLocale ∈ locales.
Proof. apply list_elem_of_here. Qed.

Lemma from_language_supported (lang : option string) :
  match lang with
  | Some l => if is_locale (before_dash l) then before_dash l else getDefaultLocale
  | None => getDefaultLocale
  end ∈ locales.
Proof.
  destruct lang as [l|]; [|apply default_is_locale].
  destruct (is_locale (before_dash l)) eqn:E; [|apply default_is_locale].
  apply is_locale_elem, E.
Qed.

End I18nFacts.

(** X26.  Whatever the browser holds (a stored preference or none, a
    browser language or none, supported or not), [detectLocale] answers
    with one of the supported locales. *)
Theorem detectLocale_is_supported (b : I18n.Browser) :
  I18n.detectLocale b ∈ I18n.locales.
Proof.
  unfold I18n.detectLocale.
  pose proof (from_language_supported (I18n.language b)) as Hlang.
  destruct (I18n.localStorage b) as [items|]; [|exact Hlang].
  destruct (items !! I18n.key) as [stored|]; [|exact Hlang].
  destruct (Js.truthy_string stored); cbn [andb]; [|exact Hlang].
  destruct (I18n.is_locale stored) eqn:E; [|exact Hlang].
  apply is_locale_elem, E.
Qed.

(** X27.  A language chosen in the switcher is found again: after a
    supported locale has been stored, [detectLocale] returns it whatever
    the browser language is.  A stored value that is not a supported
    locale is ignored: the answer is the one the browser language alone
    gives. *)
Theorem stored_preference_round_trip
    (locale : string) (items : gmap string string) (language : option string) :
  (locale ∈ I18n.locales →
   I18n.detectLocale
     (I18n.mkBrowser (Some (I18n.store_preference locale items)) language)
   = locale) ∧
  (locale ∉ I18n.locales →
   I18n.detectLocale
     (I18n.mkBrowser (Some (I18n.store_preference locale items)) language)
   = I18n.detectLocale (I18n.mkBrowser None language)).
Proof.
  unfold I18n.detectLocale, I18n.store_preference. cbn.
  rewrite lookup_insert_eq. split.
  - intros Hin. pose proof (proj2 (is_locale_elem locale) Hin) as ->.
    apply locale_cases in Hin as [-> | ->]; reflexivity.
  - intros Hnot. destruct (I18n.is_locale locale) eqn:E.
    + exfalso. apply Hnot, is_locale_elem, E.
    + rewrite andb_false_r. reflexivity.
Qed.

(** X27 (witness).  Thai is chosen in a browser set to English. *)
Lemma stored_preference_round_trip_witness :
  I18n.detectLocale
    (I18n.mkBrowser (Some (I18n.store_preference "th" ∅)) (Some "en-US"))
  = "th".
Proof.
  apply (proj1 (stored_preference_round_trip "th" ∅ (Some "en-US"))).
  apply list_elem_of_further, list_elem_of_here.
Defined.

(** X28.  Without a stored preference the browser language decides by
    its primary tag: a language of the form [locale-region] with a
    supported locale gives that locale, and a bare supported locale gives
    itself. *)
Theorem browser_language_primary_tag (locale region : string) :
  locale ∈ I18n.locales →
  I18n.detectLocale (I18n.mkBrowser None (Some (locale ++ "-" ++ region))) = locale ∧
  I18n.detectLocale (I18n.mkBrowser (Some ∅) (Some locale)) = locale.
Proof.
  intros Hin. apply locale_cases in Hin as [-> | ->]; split; reflexivity.
Qed.

(** X28 (witness).  The browser language [th-TH]. *)
Lemma browser_language_primary_tag_witness :
  I18n.detectLocale (I18n.mkBrowser None (Some "th-TH")) = "th".
Proof.
  apply (proj1 (browser_language_primary_tag "th" "TH"
                  (list_elem_of_further _ _ _ (list_elem_of_here _ _)))).
Defined.
